(** * autogen_project.py: a shallow embedding and its verified properties

    The program is one Python file: three agents (CoderAgent, ReviewerAgent,
    ExecutorAgent), an Orchestrator that drives them in a bounded retry loop,
    and a helper that rewrites a delimited section of README.md.

    Conventions of the embedding.
    - Python [str] is modelled by [string] (the UTF-8 bytes of the text).  The
      markers, prompts and patterns of the program are ASCII, so substring
      search, [split] and [replace] agree with Python on every text; [strip],
      [upper] and [len] agree with Python on ASCII text.
    - Python [int] is [Z].
    - Effects are explicit: a computation is a function from a world to an
      outcome (a value or a raised exception) and a new world.
    - The completion service and the Python interpreter behind [exec] are
      outside the repository; they are parameters of the agents. *)

From Stdlib Require Import String Ascii List ZArith Bool Lia.
From Stdlib Require Import DecimalString Sorted.
Import ListNotations.

Local Open Scope string_scope.
Local Open Scope Z_scope.

(** ** Python strings *)

Module PyStr.

Definition nl : string := String (ascii_of_nat 10) EmptyString.
Definition dq : string := String (ascii_of_nat 34) EmptyString.

(** [s.startswith(p)] *)
Fixpoint startswith (p s : string) : bool :=
  match p with
  | EmptyString => true
  | String a p' =>
      match s with
      | EmptyString => false
      | String b s' => if Ascii.eqb a b then startswith p' s' else false
      end
  end.

(** [sub in s] *)
Fixpoint contains (sub s : string) : bool :=
  if startswith sub s then true
  else match s with
       | EmptyString => false
       | String _ s' => contains sub s'
       end.

(** [s.split(sep)[0]] for a non-empty [sep]: the text before the first
    occurrence of [sep], or all of [s] when there is none. *)
Fixpoint split_head (sep s : string) : string :=
  match s with
  | EmptyString => EmptyString
  | String c s' =>
      if startswith sep s then EmptyString else String c (split_head sep s')
  end.

(** [s.replace(old, "")] for a non-empty [old]: the occurrences of [old]
    are removed left to right, without overlap.  [skip] counts the
    characters of a matched occurrence that are still to be dropped. *)
Fixpoint remove_from (old : string) (skip : nat) (s : string) : string :=
  match s with
  | EmptyString => EmptyString
  | String c s' =>
      match skip with
      | S k => remove_from old k s'
      | O =>
          if startswith old s
          then remove_from old (Nat.pred (String.length old)) s'
          else String c (remove_from old O s')
      end
  end.

Definition remove (old s : string) : string := remove_from old O s.

(** ASCII characters for which [str.isspace] holds. *)
Definition isspace (c : ascii) : bool :=
  let n := nat_of_ascii c in
  ((9 <=? n)%nat && (n <=? 13)%nat) || ((28 <=? n)%nat && (n <=? 32)%nat).

Fixpoint lstrip (s : string) : string :=
  match s with
  | EmptyString => EmptyString
  | String c s' => if isspace c then lstrip s' else s
  end.

Fixpoint rstrip (s : string) : string :=
  match s with
  | EmptyString => EmptyString
  | String c s' =>
      match rstrip s' with
      | EmptyString => if isspace c then EmptyString else String c EmptyString
      | r => String c r
      end
  end.

(** [s.strip()] *)
Definition strip (s : string) : string := rstrip (lstrip s).

Definition upper_char (c : ascii) : ascii :=
  let n := nat_of_ascii c in
  if ((97 <=? n)%nat && (n <=? 122)%nat)%bool then ascii_of_nat (n - 32) else c.

(** [s.upper()] *)
Fixpoint upper (s : string) : string :=
  match s with
  | EmptyString => EmptyString
  | String c s' => String (upper_char c) (upper s')
  end.

(** [sep.join(xs)] *)
Fixpoint join (sep : string) (xs : list string) : string :=
  match xs with
  | [] => EmptyString
  | [x] => x
  | x :: rest => x ++ sep ++ join sep rest
  end.

(** [s[n:]] *)
Fixpoint drop (n : nat) (s : string) : string :=
  match n, s with
  | O, _ => s
  | Datatypes.S _, EmptyString => EmptyString
  | Datatypes.S n', String _ s' => drop n' s'
  end.

(** [c in s] for a single character [c] *)
Fixpoint occurs (c : ascii) (s : string) : bool :=
  match s with
  | EmptyString => false
  | String b s' => Ascii.eqb c b || occurs c s'
  end.

(** [len(s)] *)
Definition len (s : string) : Z := Z.of_nat (String.length s).

(** [str(n)] for an int *)
Definition str_of_int (n : Z) : string := NilZero.string_of_int (Z.to_int n).

(** Truth value of a [str]: the empty string is false. *)
Definition truthy (s : string) : bool :=
  match s with EmptyString => false | _ => true end.

End PyStr.

(** ** Exceptions and effects *)

(** A raised Python exception: the name of its class, the names of the
    classes in its method resolution order (itself first), what [str(e)]
    gives, and the [lineno] and [msg] attributes a SyntaxError carries
    (either can be [None]). *)
Record exn : Type := mk_exn {
  exc_type : string;
  exc_mro : list string;
  exc_str : string;
  exc_lineno : option Z;
  exc_msg : option string
}.

(** [isinstance(e, cls)], which is what an [except cls] clause tests. *)
Definition isinstance (e : exn) (cls : string) : bool :=
  existsb (String.eqb cls) (exc_mro e).

Definition plain_exn (name : string) (mro : list string) (text : string) : exn :=
  mk_exn name mro text None None.

Definition SystemExit_ (text : string) : exn :=
  plain_exn "SystemExit" ["SystemExit"; "BaseException"; "object"] text.

Definition KeyboardInterrupt_ : exn :=
  plain_exn "KeyboardInterrupt" ["KeyboardInterrupt"; "BaseException"; "object"] "".

Definition TypeError_ (text : string) : exn :=
  plain_exn "TypeError" ["TypeError"; "Exception"; "BaseException"; "object"] text.

Definition AttributeError_ (text : string) : exn :=
  plain_exn "AttributeError"
            ["AttributeError"; "Exception"; "BaseException"; "object"] text.

Definition NameError_ (name : string) : exn :=
  plain_exn "NameError" ["NameError"; "Exception"; "BaseException"; "object"]
            ("name '" ++ name ++ "' is not defined").

Definition SyntaxError_ (msg : string) (lineno : Z) : exn :=
  mk_exn "SyntaxError" ["SyntaxError"; "Exception"; "BaseException"; "object"]
         (msg ++ " (<string>, line " ++ PyStr.str_of_int lineno ++ ")")
         (Some lineno) (Some msg).

(** Reading a local variable that no statement has assigned yet. *)
Definition UnboundLocalError_ (name : string) : exn :=
  plain_exn "UnboundLocalError"
            ["UnboundLocalError"; "NameError"; "Exception"; "BaseException"; "object"]
            ("cannot access local variable '" ++ name
               ++ "' where it is not associated with a value").

Inductive res (A : Type) : Type :=
| Ok (a : A)
| Raise (e : exn).
Arguments Ok {A} a.
Arguments Raise {A} e.

(** A computation over a world [W]: it returns or raises, and leaves a world. *)
Definition M (W A : Type) : Type := W -> res A * W.

Definition ret {W A} (a : A) : M W A := fun w => (Ok a, w).

Definition raise {W A} (e : exn) : M W A := fun w => (Raise e, w).

Definition bind {W A B} (c : M W A) (k : A -> M W B) : M W B :=
  fun w => match c w with
           | (Ok a, w') => k a w'
           | (Raise e, w') => (Raise e, w')
           end.

(** [try: c  except <handler>]: the handler decides, per exception, whether
    it catches ([Some] of the handling code) or lets it pass ([None]). *)
Definition try_except {W A} (c : M W A) (handler : exn -> option (M W A)) : M W A :=
  fun w => match c w with
           | (Ok a, w') => (Ok a, w')
           | (Raise e, w') =>
               match handler e with
               | Some h => h w'
               | None => (Raise e, w')
               end
           end.

Declare Scope py_scope.
Delimit Scope py_scope with py.
Notation "x <- c ;; k" := (bind c (fun x => k))
  (at level 61, c at next level, right associativity) : py_scope.
Notation "' pat <- c ;; k" := (bind c (fun x => match x with pat => k end))
  (at level 61, pat pattern, c at next level, right associativity) : py_scope.
Notation "c ;; k" := (bind c (fun _ => k))
  (at level 61, right associativity) : py_scope.
Local Open Scope py_scope.

(** ** Data model *)

(** The dict the Reviewer returns: [{"approved": ..., "feedback": ...}]. *)
Record verdict : Type := mk_verdict {
  approved : bool;
  feedback : string
}.

(** The dict the Executor returns:
    [{"worked": ..., "output": ..., "error": ...}]; [None] is Python's None.
    The dict the Orchestrator builds after a rejection,
    [{"worked": False, "error": feedback}], has no "output" key; it is
    modelled with [output = None] (the loop reads only "worked" and
    "error"). *)
Record outcome : Type := mk_outcome {
  worked : bool;
  output : option string;
  error : option string
}.

(** The [mood] argument of [Agent.say]. *)
Inductive mood : Type :=
| info | success | error_mood | code_mood | thinking | working.

(** The texts handed to [Agent.say], one constructor per f-string of the
    source, carrying the interpolated values. *)
Inductive message : Type :=
(* CoderAgent *)
| CoderFixing (error_msg : string)
| CoderAttempt (attempt : Z) (task : string)
| CoderWrote (code : string)
| CoderFailed (e : string)
(* ExecutorAgent *)
| ExecutorRunning
| ExecutorSuccess (printed_stuff : string)
| ExecutorSyntaxProblems (msg : string)
| ExecutorMissingName (msg : string)
| ExecutorWentWrong (msg : string)
(* ReviewerAgent *)
| ReviewerReviewing
| ReviewerLooksGood
| ReviewerFoundIssues (review : string)
(* Orchestrator *)
| NewTask (task : string)
| Round (attempt max_tries : Z)
| ReviewerFoundIssuesSendingBack
| CompletedIn (attempt : Z)
| TryAgain
| GaveUp (max_tries : Z).

(** [range(lo, hi)] *)
Definition range (lo hi : Z) : list Z :=
  map (fun k => lo + Z.of_nat k) (seq 0 (Z.to_nat (hi - lo))).

(** ** Orchestrator.run_task *)

Section Orchestrator.

Context {W : Type}.

(** [self.say], and the three agents passed to [run_task]. *)
Variable say : message -> mood -> M W unit.
Variable write_code : string -> option string -> M W string.
Variable review : string -> string -> M W verdict.
Variable run_code : string -> M W outcome.

Variable task : string.
Variable max_tries : Z.

(** Reading the local variable [result], which is unbound until the first
    assignment. *)
Definition read_result (result : option outcome) : M W outcome :=
  match result with
  | Some r => ret r
  | None => raise (UnboundLocalError_ "result")
  end.

(** The [for attempt in range(1, max_tries + 1)] loop followed by the final
    [return result].  [rounds] holds the values of [attempt] still to come
    and [result] the current binding of the local variable. *)
Fixpoint attempts (rounds : list Z) (result : option outcome) : M W outcome :=
  match rounds with
  | [] => read_result result
  | attempt :: rest =>
      say (Round attempt max_tries) info ;;
      code <- (if attempt =? 1
               then write_code task None
               else (r <- read_result result ;; write_code task (error r))) ;;
      rv <- review code task ;;
      if negb (approved rv) && (attempt <? max_tries)
      then
        say ReviewerFoundIssuesSendingBack info ;;
        attempts rest (Some (mk_outcome false None (Some (feedback rv))))
      else
        r <- run_code code ;;
        if worked r
        then
          say (CompletedIn attempt) success ;;
          ret r
        else
          (if attempt <? max_tries
           then say TryAgain info
           else say (GaveUp max_tries) error_mood) ;;
          attempts rest (Some r)
  end.

Definition run_task : M W outcome :=
  say (NewTask task) info ;;
  attempts (range 1 (max_tries + 1)) None.

End Orchestrator.

(** ** The outside world of the agents *)

(** The keyword arguments of [chat.completions.create]. *)
Record request : Type := mk_request {
  model : string;
  messages : list (string * string);   (* role, content *)
  temperature : string;                (* the float literal of the source *)
  max_tokens : Z
}.

(** What [create(...)] followed by [response.choices[0].message.content]
    gives: the content (a [str] or None) or a raised exception. *)
Inductive completion : Type :=
| Content (c : option string)
| Failure (e : exn).

(** Objects a candidate leaves in its local scope.  [text] is what [str()]
    and f-string formatting give; a callable also carries what calling it
    with the single argument [10] does. *)
Inductive pyvalue : Type :=
| PyObject (text : string)
| PyCallable (text : string) (on_ten : call_outcome)
with call_outcome : Type :=
| Returns (v : pyvalue)
| Throws (e : exn).

Definition str (v : pyvalue) : string :=
  match v with
  | PyObject t => t
  | PyCallable t _ => t
  end.

(** A Python dict with [str] keys, in insertion order. *)
Definition dict (V : Type) : Type := list (string * V).

(** [d.get(key)]; also decides [key in d]. *)
Fixpoint dict_get {V} (key : string) (d : dict V) : option V :=
  match d with
  | [] => None
  | (k, v) :: rest => if String.eqb key k then Some v else dict_get key rest
  end.

(** Values bound in the globals handed to [exec]: a built-in function, or
    the [builtins] module itself (the value of the name [__builtins__] in a
    script). *)
Inductive global_value : Type :=
| BuiltinFunction (name : string)
| BuiltinsModule.

(** What [exec(code, globals, locals)] under [redirect_stdout] does: it
    completes, leaving the locals dict and the captured output, or raises. *)
Inductive exec_outcome : Type :=
| Completed (local_vars : dict pyvalue) (printed : string)
| Raised (e : exn).

Definition MODEL : string := "llama-3.1-8b-instant".

(** [safe_space] of [ExecutorAgent.run_code]. *)
Definition safe_space : dict global_value :=
  [ ("__builtins__", BuiltinsModule);
    ("print", BuiltinFunction "print");
    ("range", BuiltinFunction "range");
    ("len", BuiltinFunction "len");
    ("sum", BuiltinFunction "sum");
    ("max", BuiltinFunction "max");
    ("min", BuiltinFunction "min") ].

(** f-string formatting of an attribute that is an int or None. *)
Definition fmt_int_or_none (v : option Z) : string :=
  match v with
  | Some n => PyStr.str_of_int n
  | None => "None"
  end.

(** f-string formatting of an attribute that is a str or None. *)
Definition fmt_str_or_none (v : option string) : string :=
  match v with
  | Some s => s
  | None => "None"
  end.

Section Agents.

(** The state of everything outside the program, and the two services the
    program calls on it. *)
Variable Env : Type.
Variable create : request -> Env -> completion * Env.
Variable py_exec : string -> dict global_value -> Env -> exec_outcome * Env.

(** The program's state: the Coder's [self.attempt], what has been printed
    through [Agent.say], the requests sent to the completion service, and
    the outside world. *)
Record World : Type := mk_World {
  coder_attempt : Z;
  console : list (string * mood * message);
  sent : list request;
  env : Env
}.

Definition set_attempt (n : Z) (w : World) : World :=
  mk_World n (console w) (sent w) (env w).

(** [Agent.say]: prints the text under the agent's name. *)
Definition Agent_say (name : string) (text : message) (m : mood) : M World unit :=
  fun w => (Ok tt, mk_World (coder_attempt w) (console w ++ [(name, m, text)])
                            (sent w) (env w)).

(** [self.ai.chat.completions.create(...)] and the extraction of the
    content of its first choice. *)
Definition chat_completion (req : request) : M World (option string) :=
  fun w =>
    let '(c, env') := create req (env w) in
    let w' := mk_World (coder_attempt w) (console w) (sent w ++ [req]) env' in
    match c with
    | Content c => (Ok c, w')
    | Failure e => (Raise e, w')
    end.

(** [exec(code, safe_space, local_vars)] under [redirect_stdout]. *)
Definition exec_ (code : string) (globals : dict global_value)
  : M World (dict pyvalue * string) :=
  fun w =>
    let '(o, env') := py_exec code globals (env w) in
    let w' := mk_World (coder_attempt w) (console w) (sent w) env' in
    match o with
    | Completed local_vars printed => (Ok (local_vars, printed), w')
    | Raised e => (Raise e, w')
    end.

(** *** CoderAgent *)

Definition fix_instructions (error_msg task : string) : string :=
  "The code you wrote before had this problem: " ++ error_msg ++ PyStr.nl
    ++ PyStr.nl ++ "Original task: " ++ task ++ PyStr.nl
    ++ PyStr.nl
    ++ "Please write working Python code that fixes this issue. Just give me the code, no explanations.".

Definition incomplete_instructions (task : string) : string :=
  task ++ PyStr.nl
    ++ PyStr.nl
    ++ "Write Python code but make it incomplete (like leaving a TODO comment)."
    ++ PyStr.nl
    ++ "This helps demonstrate how the system fixes itself.".

Definition complete_instructions (task : string) : string :=
  task ++ PyStr.nl
    ++ PyStr.nl
    ++ "Write complete, working Python code. Just the code, nothing else.".

Definition coder_request (instructions : string) : request :=
  mk_request MODEL
             [ ("system", "You're a Python expert. Write clean code.");
               ("user", instructions) ]
             "0.7" 800.

(** The truth value of [error_msg]: None and the empty string are false. *)
Definition given (error_msg : option string) : option string :=
  match error_msg with
  | Some s => if PyStr.truthy s then Some s else None
  | None => None
  end.

Definition CoderAgent_write_code (task : string) (error_msg : option string)
  : M World string :=
  fun w0 =>
    (* self.attempt += 1 *)
    let attempt := coder_attempt w0 + 1 in
    (instructions <-
       match given error_msg with
       | Some em =>
           Agent_say "Coder" (CoderFixing em) thinking ;;
           ret (fix_instructions em task)
       | None =>
           Agent_say "Coder" (CoderAttempt attempt task) thinking ;;
           ret (if attempt =? 1
                then incomplete_instructions task
                else complete_instructions task)
       end ;;
     try_except
       (raw_code <- chat_completion (coder_request instructions) ;;
        code <- match raw_code with
                | Some raw =>
                    ret (PyStr.strip
                           (PyStr.remove "```" (PyStr.remove "```python" raw)))
                | None =>
                    raise (AttributeError_
                             "'NoneType' object has no attribute 'replace'")
                end ;;
        Agent_say "Coder" (CoderWrote code) code_mood ;;
        ret code)
       (fun e =>
          (* except Exception as e *)
          if isinstance e "Exception"
          then Some (Agent_say "Coder" (CoderFailed (exc_str e)) error_mood ;;
                     ret ("# Error: " ++ exc_str e))
          else None))
      (set_attempt attempt w0).

(** *** ReviewerAgent *)

Definition review_prompt (code task : string) : string :=
  "Review this Python code briefly:" ++ PyStr.nl
    ++ PyStr.nl
    ++ "```python" ++ PyStr.nl
    ++ code ++ PyStr.nl
    ++ "```" ++ PyStr.nl
    ++ PyStr.nl
    ++ "Task it should solve: " ++ task ++ PyStr.nl
    ++ PyStr.nl
    ++ "Just say " ++ PyStr.dq ++ "APPROVED" ++ PyStr.dq
    ++ " if it looks complete and correct, or briefly explain what's wrong.".

Definition reviewer_request (prompt : string) : request :=
  mk_request MODEL [ ("user", prompt) ] "0.3" 200.

(** The checks made without the completion service. *)
Definition basic_issues (code : string) : list string :=
  (if PyStr.contains "TODO" code || PyStr.contains "pass" code
   then ["Code looks incomplete (has TODO or pass)"] else [])
    ++ (if PyStr.len (PyStr.strip code) <? 20
        then ["Code seems too short to be complete"] else []).

Definition ReviewerAgent_review (code task : string) : M World verdict :=
  Agent_say "Reviewer" ReviewerReviewing thinking ;;
  let issues := basic_issues code in
  try_except
    (content <- chat_completion (reviewer_request (review_prompt code task)) ;;
     match content with
     | Some review =>
         if PyStr.contains "APPROVED" (PyStr.upper review)
         then
           Agent_say "Reviewer" ReviewerLooksGood success ;;
           ret (mk_verdict true "Looks good")
         else
           Agent_say "Reviewer" (ReviewerFoundIssues review) info ;;
           ret (mk_verdict false review)
     | None =>
         raise (AttributeError_ "'NoneType' object has no attribute 'upper'")
     end)
    (fun _ =>
       (* a bare except: catches everything *)
       Some (match issues with
             | _ :: _ => ret (mk_verdict false (PyStr.join ", " issues))
             | [] => ret (mk_verdict true "Basic checks passed")
             end)).

(** *** ExecutorAgent *)

Definition conventional_names : list string :=
  ["fibonacci"; "fib"; "calculate"; "main"].

(** The [for func_name in [...]] loop: the first of the names that is
    bound to a callable is called with 10, and the loop stops there. *)
Fixpoint call_conventional (names : list string) (local_vars : dict pyvalue)
         (printed_stuff : string) : M World string :=
  match names with
  | [] => ret printed_stuff
  | func_name :: rest =>
      match dict_get func_name local_vars with
      | Some (PyCallable _ call) =>
          match call with
          | Returns result => ret ("Result: " ++ str result)
          | Throws e => raise e
          end
      | _ => call_conventional rest local_vars printed_stuff
      end
  end.

Definition ExecutorAgent_run_code (code : string) : M World outcome :=
  Agent_say "Executor" ExecutorRunning working ;;
  try_except
    ('(local_vars, printed_stuff) <- exec_ code safe_space ;;
     printed_stuff <- call_conventional conventional_names local_vars
                                        printed_stuff ;;
     let printed_stuff :=
       match dict_get "result" local_vars with
       | Some result => "Result: " ++ str result
       | None => printed_stuff
       end in
     Agent_say "Executor" (ExecutorSuccess printed_stuff) success ;;
     ret (mk_outcome true (Some printed_stuff) None))
    (fun e =>
       if isinstance e "SyntaxError" then
         let msg := "Syntax error on line " ++ fmt_int_or_none (exc_lineno e)
                      ++ ": " ++ fmt_str_or_none (exc_msg e) in
         Some (Agent_say "Executor" (ExecutorSyntaxProblems msg) error_mood ;;
               ret (mk_outcome false None (Some msg)))
       else if isinstance e "NameError" then
         let msg := "Variable or function not found: " ++ exc_str e in
         Some (Agent_say "Executor" (ExecutorMissingName msg) error_mood ;;
               ret (mk_outcome false None (Some msg)))
       else if isinstance e "Exception" then
         let msg := exc_type e ++ ": " ++ exc_str e in
         Some (Agent_say "Executor" (ExecutorWentWrong msg) error_mood ;;
               ret (mk_outcome false None (Some msg)))
       else None).

(** [orchestrator.run_task(task, coder, reviewer, executor, max_tries)]
    with the three agents of this file, as [main] and [custom_mode] call
    it. *)
Definition Orchestrator_run_task (task : string) (max_tries : Z)
  : M World outcome :=
  run_task (Agent_say "Orchestrator") CoderAgent_write_code
           ReviewerAgent_review ExecutorAgent_run_code task max_tries.

End Agents.

Arguments coder_attempt {Env} w.
Arguments console {Env} w.
Arguments sent {Env} w.
Arguments env {Env} w.
Arguments mk_World {Env} _ _ _ _.

(** ** Name resolution inside [exec] *)

(** How Python resolves a global name while it runs code under a globals
    dict: the dict itself first, then the module bound to [__builtins__]
    (which [exec] inserts when the key is missing).  [builtins] lists the
    names the interpreter's [builtins] module defines. *)
Definition resolve (builtins : list string) (globals : dict global_value)
           (name : string) : option global_value :=
  match dict_get name globals with
  | Some v => Some v
  | None =>
      match dict_get "__builtins__" globals with
      | Some BuiltinsModule | None =>
          if existsb (String.eqb name) builtins
          then Some (BuiltinFunction name) else None
      | Some (BuiltinFunction _) => None
      end
  end.

(** The built-in functions of the Python language reference (the functions
    of the [builtins] module; it also holds the exception classes and a few
    constants, which are left out). *)
Definition builtin_functions : list string :=
  [ "abs"; "aiter"; "all"; "anext"; "any"; "ascii"; "bin"; "bool";
    "breakpoint"; "bytearray"; "bytes"; "callable"; "chr"; "classmethod";
    "compile"; "complex"; "delattr"; "dict"; "dir"; "divmod"; "enumerate";
    "eval"; "exec"; "filter"; "float"; "format"; "frozenset"; "getattr";
    "globals"; "hasattr"; "hash"; "help"; "hex"; "id"; "input"; "int";
    "isinstance"; "issubclass"; "iter"; "len"; "list"; "locals"; "map";
    "max"; "memoryview"; "min"; "next"; "object"; "oct"; "open"; "ord";
    "pow"; "print"; "property"; "range"; "repr"; "reversed"; "round"; "set";
    "setattr"; "slice"; "sorted"; "staticmethod"; "str"; "sum"; "super";
    "tuple"; "type"; "vars"; "zip"; "__import__" ].

(** The primitives [safe_space] lists by name. *)
Definition allow_list : list string :=
  ["print"; "range"; "len"; "sum"; "max"; "min"].

(** ** update_readme_with_output *)

Module Readme.

Definition start_marker : string := "<!-- AUTO_GEN_OUTPUT_START -->".
Definition end_marker : string := "<!-- AUTO_GEN_OUTPUT_END -->".

Definition new_section (output_text : string) : string :=
  start_marker ++ PyStr.nl ++ "```" ++ PyStr.nl ++ output_text ++ PyStr.nl
    ++ "```" ++ PyStr.nl ++ end_marker.

(** What [new_section] puts between the two markers. *)
Definition fenced (output_text : string) : string :=
  PyStr.nl ++ "```" ++ PyStr.nl ++ output_text ++ PyStr.nl ++ "```" ++ PyStr.nl.

Definition latest_output_header : string :=
  PyStr.nl ++ PyStr.nl ++ "## Latest Output" ++ PyStr.nl.

Definition default_readme : string :=
  "# AutoGen Demo Project" ++ PyStr.nl ++ PyStr.nl ++ "## Latest Output"
    ++ PyStr.nl.

(** The new content computed from the content read. *)
Definition updated_content (content output_text : string) : string :=
  if PyStr.contains start_marker content && PyStr.contains end_marker content
  then PyStr.split_head start_marker content ++ new_section output_text
  else content ++ latest_output_header ++ new_section output_text ++ PyStr.nl.

(** The file README.md is [None] while it does not exist.  The function
    creates it when missing, reads it, and writes the new content. *)
Definition update_readme_with_output (output_text : string)
           (readme : option string) : option string :=
  let readme := match readme with
                | None => Some default_readme
                | Some c => Some c
                end in
  match readme with
  | Some content => Some (updated_content content output_text)
  | None => None
  end.

(** The text a document holds between its first start marker and the
    first end marker after it; [None] when it has no such pair. *)
Fixpoint after_first (sep s : string) : option string :=
  match s with
  | EmptyString => None
  | String _ s' =>
      if PyStr.startswith sep s
      then Some (PyStr.drop (String.length sep) s)
      else after_first sep s'
  end.

Definition section_content (doc : string) : option string :=
  match after_first start_marker doc with
  | None => None
  | Some rest =>
      if PyStr.contains end_marker rest
      then Some (PyStr.split_head end_marker rest)
      else None
  end.

End Readme.

(** ** Observing one run of the Orchestrator *)

(** What an observer of a run sees: the Orchestrator's announcements and
    each call of an agent, with its arguments and what it returned. *)
Inductive event : Type :=
| Said (text : message) (m : mood)
| Generated (task : string) (error_msg : option string) (code : string)
| Reviewed (code task : string) (v : verdict)
| Executed (code : string) (r : outcome).

Section Observed.

(** Any three agents that return a value on every call: each is a
    function of its arguments and of a state [S] of its choice. *)
Context {S : Type}.
Variable gen : string -> option string -> S -> string * S.
Variable rev : string -> string -> S -> verdict * S.
Variable run : string -> S -> outcome * S.

Definition log {A} (ev : A -> event) (f : S -> A * S) : M (S * list event) A :=
  fun '(s, tr) => let '(a, s') := f s in (Ok a, (s', (tr ++ [ev a])%list)).

Definition obs_say (text : message) (m : mood) : M (S * list event) unit :=
  fun '(s, tr) => (Ok tt, (s, (tr ++ [Said text m])%list)).

Definition obs_write_code (task : string) (error_msg : option string) :=
  log (Generated task error_msg) (gen task error_msg).

Definition obs_review (code task : string) :=
  log (Reviewed code task) (rev code task).

Definition obs_run_code (code : string) :=
  log (Executed code) (run code).

(** One invocation of [run_task] from state [s], with an empty log. *)
Definition observed_run (task : string) (max_tries : Z) (s : S)
  : res outcome * (S * list event) :=
  run_task obs_say obs_write_code obs_review obs_run_code task max_tries
           (s, []).

End Observed.

(** The number of Runner executions in a log. *)
Fixpoint executions (tr : list event) : Z :=
  match tr with
  | [] => 0
  | Executed _ _ :: rest => 1 + executions rest
  | _ :: rest => executions rest
  end.

(** The values of the attempt counter, as announced round by round. *)
Fixpoint announced_rounds (tr : list event) : list Z :=
  match tr with
  | [] => []
  | Said (Round attempt _) _ :: rest => attempt :: announced_rounds rest
  | _ :: rest => announced_rounds rest
  end.

(** The outcome of the last Runner execution in a log. *)
Fixpoint last_executed (tr : list event) : option outcome :=
  match tr with
  | [] => None
  | Executed _ r :: rest =>
      match last_executed rest with
      | Some r' => Some r'
      | None => Some r
      end
  | _ :: rest => last_executed rest
  end.

(** The shape of the log of the rounds [i, i+1, ...] of one run that ends by
    returning [r]; [e] is the error text handed to the Coder in round [i]. *)
Inductive rounds_from (task : string) (max_tries : Z)
  : Z -> option string -> list event -> outcome -> Prop :=
| rf_rejected i e c v rest r :
    approved v = false -> i < max_tries ->
    rounds_from task max_tries (i + 1) (Some (feedback v)) rest r ->
    rounds_from task max_tries i e
      (Said (Round i max_tries) info :: Generated task e c
         :: Reviewed c task v :: Said ReviewerFoundIssuesSendingBack info
         :: rest) r
| rf_success i e c v r :
    approved v = true \/ max_tries <= i -> worked r = true ->
    rounds_from task max_tries i e
      [Said (Round i max_tries) info; Generated task e c; Reviewed c task v;
       Executed c r; Said (CompletedIn i) success] r
| rf_retry i e c v r0 rest r :
    approved v = true -> worked r0 = false -> i < max_tries ->
    rounds_from task max_tries (i + 1) (error r0) rest r ->
    rounds_from task max_tries i e
      (Said (Round i max_tries) info :: Generated task e c
         :: Reviewed c task v :: Executed c r0 :: Said TryAgain info
         :: rest) r
| rf_exhausted i e c v r :
    worked r = false -> i = max_tries ->
    rounds_from task max_tries i e
      [Said (Round i max_tries) info; Generated task e c; Reviewed c task v;
       Executed c r; Said (GaveUp max_tries) error_mood] r.

(** The error text the loop hands to the Coder in round [i], given the
    binding of [result] at the start of the round. *)
Definition handed (i : Z) (result : option outcome) : option string :=
  if i =? 1 then None
  else match result with Some r => error r | None => None end.

(** ** Sample agents and services, used to run the definitions *)

Module Sample.

(** A Generator that counts its calls, a Reviewer that approves from the
    third candidate on, a Runner whose execution always fails. *)
Definition gen (task : string) (error_msg : option string) (calls : nat)
  : string * nat := ("result = 55", Datatypes.S calls).

Definition rev (code task : string) (calls : nat) : verdict * nat :=
  (mk_verdict (Nat.ltb 2 calls) "incomplete", calls).

Definition run (code : string) (calls : nat) : outcome * nat :=
  (mk_outcome false None (Some "boom"), calls).

End Sample.

(** ** Auxiliary notions used in the statements *)

(** The call the Executor's loop over the conventional names makes: the
    first of the names bound to a callable, if any, with what the call
    does. *)
Fixpoint first_callable (names : list string) (local_vars : dict pyvalue)
  : option call_outcome :=
  match names with
  | [] => None
  | func_name :: rest =>
      match dict_get func_name local_vars with
      | Some (PyCallable _ call) => Some call
      | _ => first_callable rest local_vars
      end
  end.

(** A computation only moves the world along the relation [R]. *)
Definition preserves {W A : Type} (R : W -> W -> Prop) (c : M W A) : Prop :=
  forall w, R w (snd (c w)).

(** [w'] is a later state of the program than [w]: the Coder's counter has
    not gone down, and the requests sent so far are still there. *)
Definition later {Env : Type} (w w' : World Env) : Prop :=
  coder_attempt w <= coder_attempt w'
  /\ exists more, sent w' = (sent w ++ more)%list.

Module SampleWorld.

(** A completion service that always answers with the same text, and an
    interpreter under which every candidate leaves [result = 55]. *)
Definition create (req : request) (e : unit) : completion * unit :=
  (Content (Some "result = 55  # APPROVED"), e).

Definition py_exec (code : string) (globals : dict global_value) (e : unit)
  : exec_outcome * unit :=
  (Completed [("result", PyObject "55")] "", e).

(** A completion service that is interrupted on every call. *)
Definition interrupted (req : request) (e : unit) : completion * unit :=
  (Failure KeyboardInterrupt_, e).

(** An interpreter under which the candidate exits the process. *)
Definition exits (code : string) (globals : dict global_value) (e : unit)
  : exec_outcome * unit :=
  (Raised (SystemExit_ "1"), e).

(** An interpreter under which the candidate does not parse. *)
Definition unparsable (code : string) (globals : dict global_value) (e : unit)
  : exec_outcome * unit :=
  (Raised (SyntaxError_ "invalid syntax" 1), e).

(** An interpreter under which the candidate defines [main()] without
    parameters and assigns [result = 5]. *)
Definition main_and_result (code : string) (globals : dict global_value)
           (e : unit) : exec_outcome * unit :=
  (Completed
     [("main", PyCallable "<function main>"
                 (Throws (TypeError_
                    "main() takes 0 positional arguments but 1 was given")));
      ("result", PyObject "5")] "", e).

(** The state of the program when [main] has built its agents. *)
Definition fresh : World unit := mk_World 0 [] [] tt.

End SampleWorld.

(** ** More sample agents *)

Module Sample2.

(** A Reviewer that approves everything and a Runner that fails on its
    first execution and works from the second on. *)
Definition rev (code task : string) (calls : nat) : verdict * nat :=
  (mk_verdict true "Looks good", calls).

Definition run (code : string) (calls : nat) : outcome * nat :=
  (if Nat.ltb calls 2
   then mk_outcome false None (Some "NameError: x")
   else mk_outcome true (Some "Result: 55") None, calls).

End Sample2.

(** ** Notions used in further statements *)

(** The two shapes of the dict [run_code] builds: a success carries an
    output text and no error, a failure no output and a non-empty error
    text. *)
Definition well_formed (r : outcome) : Prop :=
  (worked r = true /\ (exists text, output r = Some text) /\ error r = None)
  \/ (worked r = false /\ output r = None
      /\ exists detail, error r = Some detail /\ detail <> "").

(** [result['output'] if result['worked'] else result['error']], the text
    [main] and [custom_mode] show for a result. *)
Definition shown (r : outcome) : option string :=
  if worked r then output r else error r.

(** A computation lets out only exceptions that satisfy [P]. *)
Definition raises_only {W A : Type} (P : exn -> Prop) (c : M W A) : Prop :=
  forall w e w', c w = (Raise e, w') -> P e.

(** A computation raises a measure of the world by at most [k]. *)
Definition costs {W A : Type} (measure : W -> Z) (k : Z) (c : M W A) : Prop :=
  forall w, measure (snd (c w)) <= measure w + k.

(** The number of requests sent so far. *)
Definition requests_sent {Env : Type} (w : World Env) : Z :=
  Z.of_nat (List.length (sent w)).

Module SampleWorld2.

(** A completion service whose answer mentions the word in lower case. *)
Definition disapproves (req : request) (e : unit) : completion * unit :=
  (Content (Some "Not approved: it still has a TODO"), e).

(** A completion service that is out of quota on every call. *)
Definition out_of_quota (req : request) (e : unit) : completion * unit :=
  (Failure (plain_exn "RateLimitError"
              ["RateLimitError"; "Exception"; "BaseException"; "object"]
              "quota exceeded"), e).

End SampleWorld2.

(** ** The loop of custom_mode *)

Module PyStrMore.

Definition lower_char (c : ascii) : ascii :=
  let n := nat_of_ascii c in
  if ((65 <=? n)%nat && (n <=? 90)%nat)%bool then ascii_of_nat (n + 32) else c.

(** [s.lower()], on ASCII text. *)
Fixpoint lower (s : string) : string :=
  match s with
  | EmptyString => EmptyString
  | String c s' => String (lower_char c) (lower s')
  end.

End PyStrMore.

(** What [input()] raises at the end of the input. *)
Definition EOFError_ : exn :=
  plain_exn "EOFError" ["EOFError"; "Exception"; "BaseException"; "object"]
            "EOF when reading a line".

Definition quit_words : list string := ["quit"; "exit"; "q"].

Definition default_task : string := "Calculate factorial of 5".

Section CustomMode.

Variable Env : Type.
Variable create : request -> Env -> completion * Env.
Variable py_exec : string -> dict global_value -> Env -> exec_outcome * Env.

(** The [while True] loop of [custom_mode], run on the lines that
    [input()] will give ([input()] raises EOFError when there is none
    left), on the agents built before the loop and on the README file.  It
    gives back how the loop ended, the state of the agents, the README and
    the lines not read.  The calls of [print] are left out. *)
Fixpoint custom_mode_loop (inputs : list string) (w : World Env)
         (readme : option string)
  : res unit * World Env * option string * list string :=
  match inputs with
  | [] => (Raise EOFError_, w, readme, [])
  | task :: rest =>
      if existsb (String.eqb (PyStrMore.lower task)) quit_words
      then (Ok tt, w, readme, rest)
      else
        let task := match PyStr.strip task with
                    | EmptyString => default_task
                    | _ => task
                    end in
        match Orchestrator_run_task Env create py_exec task 3 w with
        | (Ok result, w') =>
            custom_mode_loop
              rest w'
              (Readme.update_readme_with_output
                 (fmt_str_or_none (shown result)) readme)
        | (Raise e, w') => (Raise e, w', readme, rest)
        end
  end.

End CustomMode.

(** * Properties of the retry loop *)

Lemma range_nil lo hi : hi <= lo -> range lo hi = [].
Proof.
  intros H. unfold range. replace (Z.to_nat (hi - lo)) with O by lia. reflexivity.
Qed.

Lemma range_cons lo hi : lo < hi -> range lo hi = lo :: range (lo + 1) hi.
Proof.
  intros H. unfold range.
  replace (Z.to_nat (hi - lo)) with (Datatypes.S (Z.to_nat (hi - (lo + 1)))) by lia.
  cbn [seq map]. f_equal; [lia|].
  rewrite <- seq_shift, map_map. apply map_ext. intros k. lia.
Qed.

Section ObservedFacts.
Context {S : Type}.
Variable gen : string -> option string -> S -> string * S.
Variable rev : string -> string -> S -> verdict * S.
Variable run : string -> S -> outcome * S.
Variable task : string.
Variable max_tries : Z.

Let loop :=
  attempts (obs_say (S:=S)) (obs_write_code gen) (obs_review rev)
           (obs_run_code run) task max_tries.

Lemma attempts_shape (n : nat) :
  forall i result s tr,
    Z.to_nat (max_tries + 1 - i) = n ->
    1 <= i <= max_tries ->
    (i = 1 \/ exists r0, result = Some r0) ->
    exists r s' t,
      loop (range i (max_tries + 1)) result (s, tr) = (Ok r, (s', (tr ++ t)%list))
      /\ rounds_from task max_tries i (handed i result) t r.
Proof.
  induction n as [|n IH]; intros i result s tr Hn Hi Hres; [lia|].
  rewrite range_cons by lia.
  assert (Hgen : exists c s1,
             (if i =? 1 then obs_write_code gen task None
              else (r <- read_result result ;; obs_write_code gen task (error r)))%py
               (s, (tr ++ [Said (Round i max_tries) info])%list)
             = (Ok c, (s1, (tr ++ [Said (Round i max_tries) info;
                                   Generated task (handed i result) c])%list))).
  { unfold handed. destruct (i =? 1) eqn:E1.
    - unfold obs_write_code, log. destruct (gen task None s) as [c s1] eqn:G.
      exists c, s1. rewrite <- app_assoc. reflexivity.
    - destruct Hres as [->|[r0 ->]]; [discriminate|].
      unfold bind, read_result, ret, obs_write_code, log.
      destruct (gen task (error r0) s) as [c s1] eqn:G.
      exists c, s1. rewrite <- app_assoc. reflexivity. }
  destruct Hgen as (c & s1 & Hgen).
  unfold loop. cbn [attempts]. fold loop.
  unfold bind at 1. cbn [obs_say].
  unfold bind at 1. rewrite Hgen.
  unfold bind at 1. unfold obs_review at 1, log at 1.
  destruct (rev c task s1) as [v s2] eqn:R.
  destruct (negb (approved v) && (i <? max_tries)) eqn:Hrej.
  - apply andb_prop in Hrej as [Hv Hlt]. apply Z.ltb_lt in Hlt.
    apply negb_true_iff in Hv.
    unfold bind at 1. cbn [obs_say].
    edestruct (IH (i + 1) (Some (mk_outcome false None (Some (feedback v)))) s2)
      as (r & s' & t & Hrun & Hshape); [lia|lia|right; eauto|].
    exists r, s', (Said (Round i max_tries) info :: Generated task (handed i result) c
                :: Reviewed c task v :: Said ReviewerFoundIssuesSendingBack info :: t).
    split.
    + rewrite Hrun. repeat rewrite <- app_assoc. reflexivity.
    + apply rf_rejected; auto.
      replace (handed (i + 1) _) with (Some (feedback v)) in Hshape; auto.
      unfold handed. destruct (i + 1 =? 1) eqn:E; [lia|reflexivity].
  - unfold bind at 1. unfold obs_run_code at 1, log at 1.
    destruct (run c s2) as [r0 s3] eqn:X.
    assert (Hv : approved v = true \/ max_tries <= i).
    { apply andb_false_iff in Hrej as [H|H].
      - left. apply negb_false_iff in H. exact H.
      - right. apply Z.ltb_ge in H. exact H. }
    destruct (worked r0) eqn:Hw.
    + unfold bind, obs_say, ret.
      exists r0, s3, [Said (Round i max_tries) info; Generated task (handed i result) c;
                 Reviewed c task v; Executed c r0; Said (CompletedIn i) success].
      split; [repeat rewrite <- app_assoc; reflexivity|].
      apply rf_success; auto.
    + destruct (i <? max_tries) eqn:Hlt.
      * apply Z.ltb_lt in Hlt.
        unfold bind at 1. cbn [obs_say].
        edestruct (IH (i + 1) (Some r0) s3)
          as (r & s' & t & Hrun & Hshape); [lia|lia|right; eauto|].
        exists r, s', (Said (Round i max_tries) info :: Generated task (handed i result) c
                :: Reviewed c task v :: Executed c r0 :: Said TryAgain info :: t).
        split.
        -- rewrite Hrun. repeat rewrite <- app_assoc. reflexivity.
        -- apply rf_retry; auto; [destruct Hv; [auto|lia]|].
           replace (handed (i + 1) _) with (error r0) in Hshape; auto.
           unfold handed. destruct (i + 1 =? 1) eqn:E; [lia|reflexivity].
      * apply Z.ltb_ge in Hlt.
        unfold bind at 1. cbn [obs_say].
        rewrite range_nil by lia. unfold loop.
        cbn [attempts read_result]. unfold ret.
        exists r0, s3, [Said (Round i max_tries) info; Generated task (handed i result) c;
                 Reviewed c task v; Executed c r0; Said (GaveUp max_tries) error_mood].
        split; [repeat rewrite <- app_assoc; reflexivity|].
        apply rf_exhausted; auto. lia.
Qed.
End ObservedFacts.

Lemma range_bounds lo hi : Forall (fun a => lo <= a < hi) (range lo hi).
Proof.
  unfold range. apply Forall_forall. intros a Ha.
  apply in_map_iff in Ha as (k & <- & Hk). apply in_seq in Hk. lia.
Qed.

Lemma range_increasing (n : nat) :
  forall lo hi, Z.to_nat (hi - lo) = n -> StronglySorted Z.lt (range lo hi).
Proof.
  induction n as [|n IH]; intros lo hi Hn.
  - rewrite range_nil by lia. constructor.
  - rewrite range_cons by lia. constructor.
    + apply IH. lia.
    + eapply Forall_impl; [|apply range_bounds]. cbn. intros a Ha. lia.
Qed.

Section ShapeFacts.
Variable task : string.
Variable max_tries : Z.

Lemma rounds_from_starts i e t r :
  rounds_from task max_tries i e t r ->
  exists c rest, t = Said (Round i max_tries) info :: Generated task e c :: rest.
Proof. intros H; inversion H; subst; eauto. Qed.

Lemma rounds_from_counts i e t r :
  rounds_from task max_tries i e t r ->
  i <= max_tries ->
  exists k,
    i <= k <= max_tries
    /\ announced_rounds t = range i (k + 1)
    /\ 1 <= executions t <= k - i + 1
    /\ last_executed t = Some r
    /\ (worked r = true \/ k = max_tries).
Proof.
  induction 1 as [i e c v rest r Hv Hlt Hrest IH
                 |i e c v r Hv Hw
                 |i e c v r0 rest r Hv Hw Hlt Hrest IH
                 |i e c v r Hw Hi]; intros Hle.
  - destruct IH as (k & Hk & Hann & Hex & Hlast & Hend); [lia|].
    exists k. cbn [announced_rounds executions last_executed].
    rewrite Hann, Hlast, (range_cons i) by lia.
    repeat split; auto; lia.
  - exists i. cbn [announced_rounds executions last_executed].
    rewrite (range_cons i), range_nil by lia.
    repeat split; auto; lia.
  - destruct IH as (k & Hk & Hann & Hex & Hlast & Hend); [lia|].
    exists k. cbn [announced_rounds executions last_executed].
    rewrite Hann, Hlast, (range_cons i) by lia.
    repeat split; auto; lia.
  - exists i. cbn [announced_rounds executions last_executed].
    rewrite (range_cons i), range_nil by lia.
    repeat split; auto; lia.
Qed.

Ltac peel pre :=
  destruct pre as [|? pre]; cbn [app] in *;
  [ match goal with H : _ :: _ = _ :: _ |- _ => try discriminate H end
  | match goal with
    | H : _ :: _ = _ :: _ |- _ => injection H as ? H
    | H : [] = _ :: _ |- _ => discriminate H
    end ].

Lemma rounds_from_rejection j e0 t r :
  rounds_from task max_tries j e0 t r ->
  forall pre i e c v post,
    t = (pre ++ Said (Round i max_tries) info :: Generated task e c
             :: Reviewed c task v :: post)%list ->
    approved v = false -> i < max_tries ->
    exists c' post',
      post = Said ReviewerFoundIssuesSendingBack info
               :: Said (Round (i + 1) max_tries) info
               :: Generated task (Some (feedback v)) c' :: post'.
Proof.
  induction 1 as [j e0 c0 v0 rest r Hv0 Hlt0 Hrest IH
                 |j e0 c0 v0 r Hv0 Hw
                 |j e0 c0 v0 r0 rest r Hv0 Hw Hlt0 Hrest IH
                 |j e0 c0 v0 r Hw Hj];
    intros pre i e c v post Heq Hv Hlt.
  - destruct pre as [|x1 pre]; cbn [app] in Heq.
    + injection Heq as Hi He Hc Hvv Hpost. subst.
      apply rounds_from_starts in Hrest as (c' & post' & ->). eauto.
    + injection Heq as _ Heq. do 3 peel pre.
      eapply IH; eauto.
  - destruct pre as [|x1 pre]; cbn [app] in Heq.
    + injection Heq as Hi He Hc Hvv Hpost. subst. destruct Hv0; [congruence|lia].
    + injection Heq as _ Heq. do 4 peel pre. destruct pre; discriminate.
  - destruct pre as [|x1 pre]; cbn [app] in Heq.
    + injection Heq as Hi He Hc Hvv Hpost. subst. congruence.
    + injection Heq as _ Heq. do 4 peel pre.
      eapply IH; eauto.
  - destruct pre as [|x1 pre]; cbn [app] in Heq.
    + injection Heq as Hi He Hc Hvv Hpost. subst. lia.
    + injection Heq as _ Heq. do 4 peel pre. destruct pre; discriminate.
Qed.
End ShapeFacts.

Section RunTaskTheorems.
Context {S : Type}.
Variable gen : string -> option string -> S -> string * S.
Variable rev : string -> string -> S -> verdict * S.
Variable run : string -> S -> outcome * S.
Variable task : string.
Variable max_tries : Z.

Lemma observed_run_shape s :
  1 <= max_tries ->
  exists r s' t,
    observed_run gen rev run task max_tries s
    = (Ok r, (s', Said (NewTask task) info :: t))
    /\ rounds_from task max_tries 1 None t r.
Proof.
  intros Hmax. unfold observed_run, run_task.
  unfold bind at 1. cbn [obs_say app].
  destruct (attempts_shape gen rev run task max_tries
              (Z.to_nat (max_tries + 1 - 1)) 1 None s
              [Said (NewTask task) info] eq_refl) as (r & s' & t & Hrun & Hshape);
    [lia|auto|].
  exists r, s', t. split; [exact Hrun|exact Hshape].
Qed.

Lemma observed_run_no_tries s :
  max_tries < 1 ->
  observed_run gen rev run task max_tries s
  = (Raise (UnboundLocalError_ "result"), (s, [Said (NewTask task) info])).
Proof.
  intros Hmax. unfold observed_run, run_task.
  rewrite range_nil by lia. reflexivity.
Qed.
End RunTaskTheorems.

(** C1.  For every [max_tries >= 1] and every three agents that return a
    value on each call, one invocation of [run_task] returns exactly one
    outcome, after at most [max_tries] Runner executions.  The attempt
    counter takes the values 1, 2, ..., k for some [k <= max_tries]: it is
    strictly increasing and bounded by [max_tries].  The outcome returned is
    the one of the last Runner execution, and it is a success unless the
    tries are exhausted ([k = max_tries]). *)
Theorem run_task_bounded_terminal
  (S : Type) (gen : string -> option string -> S -> string * S)
  (rev : string -> string -> S -> verdict * S)
  (run : string -> S -> outcome * S) (task : string) (max_tries : Z) (s : S) :
  1 <= max_tries ->
  exists r s' tr k,
    observed_run gen rev run task max_tries s = (Ok r, (s', tr))
    /\ executions tr <= max_tries
    /\ 1 <= k <= max_tries
    /\ announced_rounds tr = range 1 (k + 1)
    /\ StronglySorted Z.lt (announced_rounds tr)
    /\ Forall (fun a => 1 <= a <= max_tries) (announced_rounds tr)
    /\ last_executed tr = Some r
    /\ (worked r = true \/ k = max_tries).
Proof.
  intros Hmax.
  destruct (observed_run_shape gen rev run task max_tries s Hmax)
    as (r & s' & t & Hrun & Hshape).
  destruct (rounds_from_counts task max_tries 1 None t r Hshape Hmax)
    as (k & Hk & Hann & Hex & Hlast & Hend).
  exists r, s', (Said (NewTask task) info :: t), k.
  cbn [executions announced_rounds last_executed].
  rewrite Hann.
  repeat split; auto; try lia.
  - eapply range_increasing; reflexivity.
  - eapply Forall_impl; [|apply range_bounds]. cbn. intros a Ha. lia.
Qed.

Lemma run_task_bounded_terminal_witness :
  1 <= 3 /\
  exists r s' tr k,
    observed_run Sample.gen Sample.rev Sample.run "fib" 3 O = (Ok r, (s', tr))
    /\ executions tr <= 3
    /\ 1 <= k <= 3
    /\ announced_rounds tr = range 1 (k + 1)
    /\ StronglySorted Z.lt (announced_rounds tr)
    /\ Forall (fun a => 1 <= a <= 3) (announced_rounds tr)
    /\ last_executed tr = Some r
    /\ (worked r = true \/ k = 3).
Proof.
  split; [lia|].
  apply (run_task_bounded_terminal nat Sample.gen Sample.rev Sample.run "fib" 3 O).
  lia.
Defined.

(** C4.  In the log of any run: when, in round [i < max_tries], the
    Reviewer returns [approved = False], what follows the review is the
    Orchestrator's announcement, the start of round [i + 1] and the call of
    the Coder with the Reviewer's feedback as error text.  The Runner is not
    called in round [i]. *)
Theorem rejection_skips_runner
  (S : Type) (gen : string -> option string -> S -> string * S)
  (rev : string -> string -> S -> verdict * S)
  (run : string -> S -> outcome * S) (task : string) (max_tries : Z) (s : S)
  (pre : list event) (i : Z) (e : option string) (c : string) (v : verdict)
  (post : list event) :
  snd (snd (observed_run gen rev run task max_tries s))
  = (pre ++ Said (Round i max_tries) info :: Generated task e c
         :: Reviewed c task v :: post)%list ->
  approved v = false ->
  i < max_tries ->
  exists c' post',
    post = Said ReviewerFoundIssuesSendingBack info
             :: Said (Round (i + 1) max_tries) info
             :: Generated task (Some (feedback v)) c' :: post'.
Proof.
  intros Htr Hv Hlt.
  destruct (Z_lt_ge_dec max_tries 1) as [Hno|Hmax].
  - rewrite observed_run_no_tries in Htr by exact Hno. cbn [snd] in Htr.
    destruct pre as [|x pre]; [discriminate|].
    destruct pre; discriminate.
  - destruct (observed_run_shape gen rev run task max_tries s) as (r & s' & t & Hrun & Hshape);
      [lia|].
    rewrite Hrun in Htr. cbn [snd] in Htr.
    destruct pre as [|x pre]; [discriminate|].
    injection Htr as _ Htr.
    eapply rounds_from_rejection; eauto.
Qed.

Lemma rejection_skips_runner_witness :
  exists c' post',
    skipn 4 (snd (snd (observed_run Sample.gen Sample.rev Sample.run "fib" 3 O)))
    = Said ReviewerFoundIssuesSendingBack info
        :: Said (Round (1 + 1) 3) info
        :: Generated "fib" (Some (feedback (mk_verdict false "incomplete"))) c'
        :: post'.
Proof.
  apply (rejection_skips_runner nat Sample.gen Sample.rev Sample.run "fib" 3 O
           [Said (NewTask "fib") info] 1 None "result = 55"
           (mk_verdict false "incomplete")).
  - reflexivity.
  - reflexivity.
  - lia.
Defined.

(** C10.  With [max_tries < 1] the loop body never runs: after the first
    announcement, [return result] reads a variable that was never assigned,
    and the call raises UnboundLocalError whatever the agents are; it never
    returns an outcome. *)
Theorem run_task_without_tries_raises
  (W : Type) (say : message -> mood -> M W unit)
  (write_code : string -> option string -> M W string)
  (review : string -> string -> M W verdict)
  (run_code : string -> M W outcome) (task : string) (max_tries : Z) (w : W) :
  max_tries < 1 ->
  run_task say write_code review run_code task max_tries w
  = (say (NewTask task) info ;; raise (UnboundLocalError_ "result"))%py w
  /\ forall r w',
      run_task say write_code review run_code task max_tries w <> (Ok r, w').
Proof.
  intros Hmax. unfold run_task. rewrite range_nil by lia.
  cbn [attempts read_result]. split; [reflexivity|].
  intros r w'. unfold bind, raise.
  destruct (say (NewTask task) info w) as [[[]|e] w1]; discriminate.
Qed.

Lemma run_task_without_tries_raises_witness :
  0 < 1 /\
  (run_task obs_say (obs_write_code Sample.gen) (obs_review Sample.rev)
            (obs_run_code Sample.run) "fib" 0 (O, [])
   = (obs_say (NewTask "fib") info ;; raise (UnboundLocalError_ "result"))%py (O, [])
   /\ forall r w',
       run_task obs_say (obs_write_code Sample.gen) (obs_review Sample.rev)
                (obs_run_code Sample.run) "fib" 0 (O, []) <> (Ok r, w')).
Proof.
  split; [lia|].
  apply (run_task_without_tries_raises (nat * list event) obs_say
           (obs_write_code Sample.gen) (obs_review Sample.rev)
           (obs_run_code Sample.run) "fib" 0 (O, [])).
  lia.
Defined.

(** * Properties of the agents *)

Lemma str_of_int_not_empty (n : Z) : PyStr.str_of_int n <> "".
Proof.
  unfold PyStr.str_of_int.
  destruct (Z.to_int n) as [d|d]; cbn; [|discriminate].
  destruct d; discriminate.
Qed.

Lemma fmt_int_or_none_not_empty (v : option Z) : fmt_int_or_none v <> "".
Proof.
  destruct v as [n|]; cbn; [apply str_of_int_not_empty|discriminate].
Qed.

Section ExecutorFacts.

Variable Env : Type.
Variable py_exec : string -> dict global_value -> Env -> exec_outcome * Env.

Let run_code := ExecutorAgent_run_code Env py_exec.

(** What the loop over the conventional names does, in terms of the call
    it makes. *)
Lemma call_conventional_spec names local_vars printed_stuff (w : World Env) :
  call_conventional Env names local_vars printed_stuff w
  = match first_callable names local_vars with
    | Some (Returns v) => (Ok ("Result: " ++ str v), w)
    | Some (Throws e) => (Raise e, w)
    | None => (Ok printed_stuff, w)
    end.
Proof.
  induction names as [|n names IH]; cbn [call_conventional first_callable].
  - reflexivity.
  - destruct (dict_get n local_vars) as [[t|t [v|e]]|]; auto.
Qed.

(** What the three [except] clauses make of an exception [e] raised in the
    [try] block, in a world [w]. *)
Lemma run_code_when_exec_raises code w e env' :
  py_exec code safe_space (env w) = (Raised e, env') ->
  fst (run_code code w)
  = if isinstance e "SyntaxError" then
      Ok (mk_outcome false None
            (Some ("Syntax error on line " ++ fmt_int_or_none (exc_lineno e)
                     ++ ": " ++ fmt_str_or_none (exc_msg e))))
    else if isinstance e "NameError" then
      Ok (mk_outcome false None
            (Some ("Variable or function not found: " ++ exc_str e)))
    else if isinstance e "Exception" then
      Ok (mk_outcome false None (Some (exc_type e ++ ": " ++ exc_str e)))
    else Raise e.
Proof.
  intros Hexec. unfold run_code, ExecutorAgent_run_code.
  unfold bind at 1. cbn [Agent_say].
  unfold try_except, bind at 1, exec_. cbn [env].
  rewrite Hexec.
  destruct (isinstance e "SyntaxError"); [reflexivity|].
  destruct (isinstance e "NameError"); [reflexivity|].
  destruct (isinstance e "Exception"); reflexivity.
Qed.

Lemma run_code_when_exec_completes code w local_vars printed env' :
  py_exec code safe_space (env w) = (Completed local_vars printed, env') ->
  fst (run_code code w)
  = match first_callable conventional_names local_vars with
    | Some (Throws e) =>
        if isinstance e "SyntaxError" then
          Ok (mk_outcome false None
                (Some ("Syntax error on line " ++ fmt_int_or_none (exc_lineno e)
                         ++ ": " ++ fmt_str_or_none (exc_msg e))))
        else if isinstance e "NameError" then
          Ok (mk_outcome false None
                (Some ("Variable or function not found: " ++ exc_str e)))
        else if isinstance e "Exception" then
          Ok (mk_outcome false None (Some (exc_type e ++ ": " ++ exc_str e)))
        else Raise e
    | called =>
        Ok (mk_outcome true
              (Some match dict_get "result" local_vars with
                    | Some v => "Result: " ++ str v
                    | None =>
                        match called with
                        | Some (Returns v) => "Result: " ++ str v
                        | _ => printed
                        end
                    end) None)
    end.
Proof.
  intros Hexec. unfold run_code, ExecutorAgent_run_code.
  unfold bind at 1. cbn [Agent_say].
  unfold try_except, bind at 1, exec_. cbn [env].
  rewrite Hexec.
  unfold bind at 1. rewrite call_conventional_spec.
  destruct (first_callable conventional_names local_vars) as [[v|e]|].
  - destruct (dict_get "result" local_vars); reflexivity.
  - destruct (isinstance e "SyntaxError"); [reflexivity|].
    destruct (isinstance e "NameError"); [reflexivity|].
    destruct (isinstance e "Exception"); reflexivity.
  - destruct (dict_get "result" local_vars); reflexivity.
Qed.

Lemma run_code_digests code w :
  (exists r, fst (run_code code w) = Ok r)
  \/ (exists e, fst (run_code code w) = Raise e
                /\ isinstance e "Exception" = false).
Proof.
  destruct (py_exec code safe_space (env w)) as [[local_vars printed|e] env'] eqn:Hexec.
  - rewrite (run_code_when_exec_completes _ _ _ _ _ Hexec).
    destruct (first_callable conventional_names local_vars) as [[v|e]|]; eauto.
    destruct (isinstance e "SyntaxError"); eauto.
    destruct (isinstance e "NameError"); eauto.
    destruct (isinstance e "Exception") eqn:E; eauto.
  - rewrite (run_code_when_exec_raises _ _ _ _ Hexec).
    destruct (isinstance e "SyntaxError"); eauto.
    destruct (isinstance e "NameError"); eauto.
    destruct (isinstance e "Exception") eqn:E; eauto.
Qed.

End ExecutorFacts.

Section CompletionFacts.

Variable Env : Type.
Variable create : request -> Env -> completion * Env.

Lemma write_code_digests task error_msg (w : World Env) :
  (exists code, fst (CoderAgent_write_code Env create task error_msg w) = Ok code)
  \/ (exists e req env',
        fst (CoderAgent_write_code Env create task error_msg w) = Raise e
        /\ create req (env w) = (Failure e, env')
        /\ isinstance e "Exception" = false).
Proof.
  unfold CoderAgent_write_code.
  set (attempt := coder_attempt w + 1).
  set (instructions :=
         match given error_msg with
         | Some em => fix_instructions em task
         | None => if attempt =? 1 then incomplete_instructions task
                   else complete_instructions task
         end).
  assert (Hinstr : forall (k : string -> M (World Env) string),
             exists w1,
               env w1 = env w /\
               (instructions <-
                  match given error_msg with
                  | Some em =>
                      Agent_say Env "Coder" (CoderFixing em) thinking ;;
                      ret (fix_instructions em task)
                  | None =>
                      Agent_say Env "Coder" (CoderAttempt attempt task) thinking ;;
                      ret (if attempt =? 1 then incomplete_instructions task
                           else complete_instructions task)
                  end ;; k instructions)%py (set_attempt Env attempt w)
               = k instructions w1).
  { intros k. subst instructions.
    destruct (given error_msg); eexists; (split; [|reflexivity]); reflexivity. }
  destruct (Hinstr (fun instructions =>
              try_except
                (raw_code <- chat_completion Env create (coder_request instructions) ;;
                 code <- match raw_code with
                         | Some raw =>
                             ret (PyStr.strip
                                    (PyStr.remove "```" (PyStr.remove "```python" raw)))
                         | None =>
                             raise (AttributeError_
                                      "'NoneType' object has no attribute 'replace'")
                         end ;;
                 Agent_say Env "Coder" (CoderWrote code) code_mood ;;
                 ret code)%py
                (fun e =>
                   if isinstance e "Exception"
                   then Some (Agent_say Env "Coder" (CoderFailed (exc_str e)) error_mood ;;
                              ret ("# Error: " ++ exc_str e))%py
                   else None))) as (w1 & Henv & ->).
  unfold try_except, bind, chat_completion. cbv beta. rewrite Henv.
  destruct (create (coder_request instructions) (env w)) as [[[raw|]|e] env'] eqn:Hc.
  - left. eexists. reflexivity.
  - left. eexists. reflexivity.
  - destruct (isinstance e "Exception") eqn:E.
    + left. eexists. reflexivity.
    + right. exists e, (coder_request instructions), env'.
      split; [reflexivity|]. split; [exact Hc|exact E].
Qed.

Lemma review_digests code task (w : World Env) :
  exists v, fst (ReviewerAgent_review Env create code task w) = Ok v.
Proof.
  unfold ReviewerAgent_review.
  unfold bind at 1. cbn [Agent_say].
  unfold try_except, bind, chat_completion. cbv beta. cbn [env].
  destruct (create _ _) as [[[review|]|e] env'].
  - destruct (PyStr.contains "APPROVED" (PyStr.upper review)); eexists; reflexivity.
  - cbn. destruct (basic_issues code); eexists; reflexivity.
  - destruct (basic_issues code); eexists; reflexivity.
Qed.

End CompletionFacts.









(** * State that outlives an invocation *)

Section Preservation.

Context {W : Type} (R : W -> W -> Prop).
Hypothesis R_refl : forall w, R w w.
Hypothesis R_trans : forall w1 w2 w3, R w1 w2 -> R w2 w3 -> R w1 w3.

Lemma preserves_ret {A} (a : A) : preserves R (ret a).
Proof. intros w. apply R_refl. Qed.

Lemma preserves_raise {A} (e : exn) : preserves R (raise (A:=A) e).
Proof. intros w. apply R_refl. Qed.

Lemma preserves_bind {A B} (c : M W A) (k : A -> M W B) :
  preserves R c -> (forall a, preserves R (k a)) -> preserves R (bind c k).
Proof.
  intros Hc Hk w. unfold bind. specialize (Hc w).
  destruct (c w) as [[a|e] w1]; cbn [snd] in *; [|exact Hc].
  eapply R_trans; [exact Hc|apply Hk].
Qed.

Lemma preserves_try {A} (c : M W A) (handler : exn -> option (M W A)) :
  preserves R c ->
  (forall e h, handler e = Some h -> preserves R h) ->
  preserves R (try_except c handler).
Proof.
  intros Hc Hh w. unfold try_except. specialize (Hc w).
  destruct (c w) as [[a|e] w1]; cbn [snd] in *; [exact Hc|].
  destruct (handler e) as [h|] eqn:He; [|exact Hc].
  eapply R_trans; [exact Hc|eapply Hh; eauto].
Qed.

Variable say : message -> mood -> M W unit.
Variable write_code : string -> option string -> M W string.
Variable review : string -> string -> M W verdict.
Variable run_code : string -> M W outcome.
Hypothesis say_ok : forall t m, preserves R (say t m).
Hypothesis write_code_ok : forall t e, preserves R (write_code t e).
Hypothesis review_ok : forall c t, preserves R (review c t).
Hypothesis run_code_ok : forall c, preserves R (run_code c).

Variable task : string.
Variable max_tries : Z.

Lemma preserves_read_result result : preserves R (read_result (W:=W) result).
Proof. destruct result; [apply preserves_ret|apply preserves_raise]. Qed.

(** What follows the Coder's answer within a round keeps [R], provided the
    remaining rounds do. *)
Lemma preserves_after_code attempt code (later_rounds : option outcome -> M W outcome) :
  (forall result, preserves R (later_rounds result)) ->
  preserves R
    (rv <- review code task ;;
     if negb (approved rv) && (attempt <? max_tries)
     then
       say ReviewerFoundIssuesSendingBack info ;;
       later_rounds (Some (mk_outcome false None (Some (feedback rv))))
     else
       r <- run_code code ;;
       if worked r
       then say (CompletedIn attempt) success ;; ret r
       else
         (if attempt <? max_tries
          then say TryAgain info
          else say (GaveUp max_tries) error_mood) ;;
         later_rounds (Some r))%py.
Proof.
  intros Hlater.
  apply preserves_bind; [apply review_ok|]. intros rv.
  destruct (negb (approved rv) && (attempt <? max_tries)).
  - apply preserves_bind; [apply say_ok|]. intros _. apply Hlater.
  - apply preserves_bind; [apply run_code_ok|]. intros r.
    destruct (worked r).
    + apply preserves_bind; [apply say_ok|]. intros _. apply preserves_ret.
    + apply preserves_bind; [|intros _; apply Hlater].
      destruct (attempt <? max_tries); apply say_ok.
Qed.

Lemma preserves_attempts rounds :
  forall result,
    preserves R (attempts say write_code review run_code task max_tries
                          rounds result).
Proof.
  induction rounds as [|attempt rest IH]; intros result; cbn [attempts].
  - apply preserves_read_result.
  - apply preserves_bind; [apply say_ok|]. intros _.
    apply preserves_bind.
    + destruct (attempt =? 1); [apply write_code_ok|].
      apply preserves_bind; [apply preserves_read_result|].
      intros r. apply write_code_ok.
    + intros code. apply preserves_after_code. exact IH.
Qed.

End Preservation.

Section ProgramState.

Variable Env : Type.
Variable create : request -> Env -> completion * Env.
Variable py_exec : string -> dict global_value -> Env -> exec_outcome * Env.

Lemma later_refl (w : World Env) : later w w.
Proof. split; [lia|]. exists []. symmetry. apply app_nil_r. Qed.

Lemma later_trans (w1 w2 w3 : World Env) : later w1 w2 -> later w2 w3 -> later w1 w3.
Proof.
  intros [H1 [m1 E1]] [H2 [m2 E2]]. split; [lia|].
  exists (m1 ++ m2)%list. rewrite E2, E1. symmetry. apply app_assoc.
Qed.

Lemma say_later name t m : preserves later (Agent_say Env name t m).
Proof.
  intros w. split; cbn; [lia|]. exists []. symmetry. apply app_nil_r.
Qed.

Lemma chat_completion_later req : preserves later (chat_completion Env create req).
Proof.
  intros w. unfold chat_completion.
  destruct (create req (env w)) as [[c|e] env']; cbn [snd];
    (split; cbn; [lia|eexists; reflexivity]).
Qed.

Lemma exec_later code globals : preserves later (exec_ Env py_exec code globals).
Proof.
  intros w. unfold exec_.
  destruct (py_exec code globals (env w)) as [[l p|e] env']; cbn [snd];
    (split; cbn; [lia|exists []; symmetry; apply app_nil_r]).
Qed.

Lemma review_later code task : preserves later (ReviewerAgent_review Env create code task).
Proof.
  unfold ReviewerAgent_review.
  apply (preserves_bind later later_trans); [apply say_later|]. intros _.
  apply (preserves_try later later_trans).
  - apply (preserves_bind later later_trans); [apply chat_completion_later|].
    intros [review|]; [|apply (preserves_raise later later_refl)].
    destruct (PyStr.contains "APPROVED" (PyStr.upper review));
      (apply (preserves_bind later later_trans); [apply say_later|]);
      intros _; apply (preserves_ret later later_refl).
  - intros e h Hh. injection Hh as <-.
    destruct (basic_issues code); apply (preserves_ret later later_refl).
Qed.

Lemma call_conventional_later names local_vars printed :
  preserves later (call_conventional Env names local_vars printed).
Proof.
  intros w. rewrite call_conventional_spec.
  destruct (first_callable names local_vars) as [[v|e]|]; apply later_refl.
Qed.

Lemma run_code_later code : preserves later (ExecutorAgent_run_code Env py_exec code).
Proof.
  unfold ExecutorAgent_run_code.
  apply (preserves_bind later later_trans); [apply say_later|]. intros _.
  apply (preserves_try later later_trans).
  - apply (preserves_bind later later_trans); [apply exec_later|].
    intros [local_vars printed].
    apply (preserves_bind later later_trans); [apply call_conventional_later|].
    intros printed'.
    apply (preserves_bind later later_trans); [apply say_later|].
    intros _. apply (preserves_ret later later_refl).
  - intros e h Hh.
    destruct (isinstance e "SyntaxError");
      [|destruct (isinstance e "NameError");
        [|destruct (isinstance e "Exception"); [|discriminate]]];
      injection Hh as <-;
      (apply (preserves_bind later later_trans); [apply say_later|]);
      intros _; apply (preserves_ret later later_refl).
Qed.

(** One call of [write_code]: the counter goes up by one and exactly one
    request is sent, whose instructions depend on the counter. *)
Lemma write_code_effect task error_msg (w : World Env) :
  let w' := snd (CoderAgent_write_code Env create task error_msg w) in
  coder_attempt w' = coder_attempt w + 1
  /\ sent w'
     = (sent w ++
          [coder_request
             match given error_msg with
             | Some em => fix_instructions em task
             | None => if coder_attempt w + 1 =? 1
                       then incomplete_instructions task
                       else complete_instructions task
             end])%list.
Proof.
  unfold CoderAgent_write_code, try_except, bind, chat_completion, Agent_say, ret,
    raise, set_attempt.
  cbv beta.
  destruct (given error_msg) as [em|]; cbn [env coder_attempt sent console];
    destruct (create _ _) as [[[raw|]|e] env']; cbn [snd];
    try (destruct (isinstance e "Exception")); cbn; auto.
Qed.

Lemma write_code_later task error_msg :
  preserves later (CoderAgent_write_code Env create task error_msg).
Proof.
  intros w. destruct (write_code_effect task error_msg w) as [Ha Hs].
  split; [lia|]. eexists. exact Hs.
Qed.

Lemma attempts_later task max_tries rounds result :
  preserves later
    (attempts (Agent_say Env "Orchestrator") (CoderAgent_write_code Env create)
              (ReviewerAgent_review Env create)
              (ExecutorAgent_run_code Env py_exec) task max_tries rounds result).
Proof.
  apply (preserves_attempts later later_refl later_trans).
  - intros t m. apply say_later.
  - intros t e. apply write_code_later.
  - intros c t. apply review_later.
  - intros c. apply run_code_later.
Qed.

End ProgramState.

Section FirstRound.

Variable Env : Type.
Variable create : request -> Env -> completion * Env.
Variable py_exec : string -> dict global_value -> Env -> exec_outcome * Env.

(** With at least one try, an invocation calls [write_code] once on the
    world it starts from (the counter and the requests sent are as it
    found them) and only goes to later states from there. *)
Lemma run_task_first_round task max_tries (w : World Env) (P : World Env -> Prop) :
  1 <= max_tries ->
  (forall w3 w',
      coder_attempt w3 = coder_attempt w + 1 ->
      sent w3
      = (sent w ++
           [coder_request (if coder_attempt w =? 0
                           then incomplete_instructions task
                           else complete_instructions task)])%list ->
      later w3 w' -> P w') ->
  P (snd (Orchestrator_run_task Env create py_exec task max_tries w)).
Proof.
  intros Hmax HP.
  unfold Orchestrator_run_task, run_task.
  rewrite range_cons by lia.
  unfold bind at 1. cbn [Agent_say].
  cbn [attempts]. unfold bind at 1.
  cbn [Agent_say Z.eqb Pos.eqb coder_attempt console sent env].
  set (w2 := mk_World (coder_attempt w) ((console w ++ [_]) ++ [_]) (sent w) (env w)).
  unfold bind at 1.
  destruct (write_code_effect Env create task None w2) as [Ha Hs].
  cbn [given] in Hs.
  replace (coder_attempt w2 + 1 =? 1) with (coder_attempt w =? 0) in Hs
    by (subst w2; cbn [coder_attempt];
        destruct (coder_attempt w =? 0) eqn:E; symmetry;
        [apply Z.eqb_eq; apply Z.eqb_eq in E; lia
        |apply Z.eqb_neq; apply Z.eqb_neq in E; lia]).
  destruct (CoderAgent_write_code Env create task None w2) as [[code|e] w3];
    cbn [snd] in Ha, Hs.
  - apply (HP w3); [exact Ha|exact Hs|].
    apply (preserves_after_code later (later_refl Env) (later_trans Env)
             (Agent_say Env "Orchestrator") (ReviewerAgent_review Env create)
             (ExecutorAgent_run_code Env py_exec)).
    + intros t m. apply say_later.
    + intros c t. apply review_later.
    + intros c. apply run_code_later.
    + intros result. apply attempts_later.
  - apply (HP w3); [exact Ha|exact Hs|apply later_refl].
Qed.

End FirstRound.

(** C7 (as amended).  The Coder's attempt counter is state that outlives an
    invocation of [run_task]: every invocation with [max_tries >= 1] leaves
    it strictly larger than it found it.  The first request of an
    invocation asks for incomplete code exactly when the counter was 0 when
    the invocation started, that is on the first task a Coder handles; on
    the first attempt of any later task the same Coder is asked for
    complete code. *)
Theorem coder_attempt_outlives_run_task
  (Env : Type) (create : request -> Env -> completion * Env)
  (py_exec : string -> dict global_value -> Env -> exec_outcome * Env)
  (task : string) (max_tries : Z) (w : World Env) :
  1 <= max_tries ->
  let w' := snd (Orchestrator_run_task Env create py_exec task max_tries w) in
  coder_attempt w < coder_attempt w'
  /\ exists more,
      sent w'
      = (sent w ++
           coder_request (if coder_attempt w =? 0
                          then incomplete_instructions task
                          else complete_instructions task) :: more)%list.
Proof.
  intros Hmax w'. subst w'.
  apply (run_task_first_round Env create py_exec task max_tries w); [exact Hmax|].
  intros w3 w' Ha Hs [Hle [more Hmore]].
  split; [lia|].
  exists more. rewrite Hmore, Hs, <- app_assoc. reflexivity.
Qed.

Lemma coder_attempt_outlives_run_task_witness :
  1 <= 3 /\
  let w' := snd (Orchestrator_run_task unit SampleWorld.create
                   SampleWorld.py_exec "fib" 3 SampleWorld.fresh) in
  coder_attempt SampleWorld.fresh < coder_attempt w'
  /\ exists more,
      sent w'
      = (sent SampleWorld.fresh ++
           coder_request (if coder_attempt SampleWorld.fresh =? 0
                          then incomplete_instructions "fib"
                          else complete_instructions "fib") :: more)%list.
Proof.
  split; [lia|].
  apply (coder_attempt_outlives_run_task unit SampleWorld.create
           SampleWorld.py_exec "fib" 3 SampleWorld.fresh).
  lia.
Defined.

(** C7, counterexample.  Two tasks handled one after the other by the same
    agents, as [custom_mode] does: the second invocation does not find the
    Coder as the first one did, and on the first attempt of the second task
    the Coder sends other instructions than on the first attempt of the
    first task, although the task text is the same. *)
Lemma second_task_sees_used_coder :
  let w0 := SampleWorld.fresh in
  let w1 := snd (Orchestrator_run_task unit SampleWorld.create
                   SampleWorld.py_exec "fib" 3 w0) in
  let w2 := snd (Orchestrator_run_task unit SampleWorld.create
                   SampleWorld.py_exec "fib" 3 w1) in
  coder_attempt w0 = 0
  /\ coder_attempt w1 = 1
  /\ nth_error (sent w2) 0
     = Some (coder_request (incomplete_instructions "fib"))
  /\ nth_error (sent w2) (List.length (sent w1))
     = Some (coder_request (complete_instructions "fib"))
  /\ incomplete_instructions "fib" <> complete_instructions "fib".
Proof.
  cbv zeta. repeat split; try reflexivity.
  intros H. vm_compute in H. discriminate H.
Qed.

(** * Facts about searching in strings *)

Section StringSearch.

Lemma append_nil_r (s : string) : s ++ "" = s.
Proof. induction s as [|c s IH]; cbn; [reflexivity|now rewrite IH]. Qed.

Lemma append_assoc (a b c : string) : (a ++ b) ++ c = a ++ b ++ c.
Proof. induction a as [|x a IH]; cbn; [reflexivity|now rewrite IH]. Qed.

Lemma startswith_refl_app (p r : string) : PyStr.startswith p (p ++ r) = true.
Proof.
  induction p as [|a p IH]; cbn; [reflexivity|].
  now rewrite Ascii.eqb_refl.
Qed.

Lemma startswith_app_r (p x z : string) :
  PyStr.startswith p x = true -> PyStr.startswith p (x ++ z) = true.
Proof.
  revert x. induction p as [|a p IH]; intros x H; [reflexivity|].
  destruct x as [|b x]; cbn in *; [discriminate|].
  destruct (Ascii.eqb a b); [auto|discriminate].
Qed.

(** A prefix of [x ++ y] either is a prefix of [x] or covers [x]. *)
Lemma startswith_app_cases (m x y : string) :
  PyStr.startswith m (x ++ y) = true ->
  PyStr.startswith m x = true
  \/ exists m2, m = x ++ m2 /\ PyStr.startswith m2 y = true.
Proof.
  revert m. induction x as [|c x IH]; intros m H.
  - right. exists m. auto.
  - destruct m as [|a m]; [left; reflexivity|].
    cbn in H |- *. destruct (Ascii.eqb a c) eqn:E; [|discriminate].
    apply Ascii.eqb_eq in E. subst c.
    destruct (IH m H) as [Hl|(m2 & -> & Hr)]; [left; exact Hl|].
    right. exists m2. auto.
Qed.

Lemma startswith_long (p a t : string) :
  (String.length p <= String.length a)%nat ->
  PyStr.startswith p (a ++ t) = PyStr.startswith p a.
Proof.
  revert a. induction p as [|x p IH]; intros a H; [reflexivity|].
  destruct a as [|y a]; cbn in *; [lia|].
  destruct (Ascii.eqb x y); [apply IH; lia|reflexivity].
Qed.

Lemma length_append (a b : string) :
  String.length (a ++ b) = (String.length a + String.length b)%nat.
Proof. induction a as [|x a IH]; cbn; [reflexivity|now rewrite IH]. Qed.

Lemma contains_unfold (x s : string) :
  PyStr.contains x s
  = if PyStr.startswith x s then true
    else match s with
         | EmptyString => false
         | String _ s' => PyStr.contains x s'
         end.
Proof. destruct s; reflexivity. Qed.

Lemma contains_app_mid (x a b : string) : PyStr.contains x (a ++ x ++ b) = true.
Proof.
  induction a as [|c a IH].
  - cbn [append]. rewrite contains_unfold. now rewrite startswith_refl_app.
  - cbn [append]. rewrite contains_unfold, IH.
    destruct (PyStr.startswith x _); reflexivity.
Qed.

Lemma contains_cons_false (x : string) (c : ascii) (s : string) :
  PyStr.contains x (String c s) = false ->
  PyStr.startswith x (String c s) = false /\ PyStr.contains x s = false.
Proof.
  cbn [PyStr.contains]. destruct (PyStr.startswith x (String c s)); [discriminate|auto].
Qed.

Lemma occurs_app_mid (c : ascii) (a b : string) :
  PyStr.occurs c (a ++ String c b) = true.
Proof.
  induction a as [|x a IH]; cbn.
  - now rewrite Ascii.eqb_refl.
  - rewrite IH. apply orb_true_r.
Qed.

Lemma drop_app (p r : string) : PyStr.drop (String.length p) (p ++ r) = r.
Proof. induction p as [|a p IH]; cbn; [destruct r; reflexivity|exact IH]. Qed.

Lemma split_head_prefix (sep s : string) :
  exists rest, s = PyStr.split_head sep s ++ rest.
Proof.
  induction s as [|c s [rest IH]].
  - exists "". reflexivity.
  - cbn [PyStr.split_head]. destruct (PyStr.startswith sep (String c s)).
    + exists (String c s). reflexivity.
    + exists rest. cbn. now rewrite <- IH.
Qed.

(** What follows the first occurrence of [e] does not matter to the text
    before it. *)
Lemma split_head_tail_irrelevant (e x t : string) :
  PyStr.split_head e (x ++ e ++ t) = PyStr.split_head e (x ++ e).
Proof.
  induction x as [|c x IH].
  - cbn [append]. destruct e as [|a e]; [destruct t; reflexivity|].
    cbn [append PyStr.split_head].
    change (String a (e ++ t)) with (String a e ++ t).
    rewrite startswith_refl_app.
    rewrite <- (append_nil_r (String a e)) at 2.
    now rewrite startswith_refl_app.
  - cbn [append PyStr.split_head]. rewrite IH.
    change (String c (x ++ e ++ t)) with (String c x ++ e ++ t).
    change (String c (x ++ e)) with (String c x ++ e).
    rewrite <- append_assoc.
    rewrite startswith_long; [reflexivity|].
    rewrite length_append. lia.
Qed.

(** A separator whose first character occurs nowhere else in it. *)
Variable c0 : ascii.
Variable tail : string.
Hypothesis c0_fresh : PyStr.occurs c0 tail = false.
Let sep := String c0 tail.

Lemma no_overlap (x m2 r : string) :
  sep = x ++ m2 -> x <> "" ->
  PyStr.startswith m2 (sep ++ r) = true -> m2 = "".
Proof.
  intros Hsep Hx Hm2. destruct m2 as [|c m2]; [reflexivity|exfalso].
  cbn in Hm2. destruct (Ascii.eqb c c0) eqn:E; [|discriminate].
  apply Ascii.eqb_eq in E. subst c.
  destruct x as [|a x]; [congruence|].
  unfold sep in Hsep. cbn in Hsep. injection Hsep as _ Htail.
  rewrite Htail, occurs_app_mid in c0_fresh. discriminate.
Qed.

Lemma not_before_first (a : ascii) (s r : string) :
  PyStr.startswith sep (String a s) = false ->
  PyStr.startswith sep (String a (PyStr.split_head sep s ++ sep ++ r)) = false.
Proof.
  intros Hno.
  destruct (PyStr.startswith sep (String a (PyStr.split_head sep s ++ sep ++ r)))
    eqn:H; [exfalso|reflexivity].
  destruct (split_head_prefix sep s) as [rest Hs].
  remember (PyStr.split_head sep s) as q eqn:Hq. clear Hq.
  change (String a (q ++ sep ++ r))
    with (String a q ++ sep ++ r) in H.
  apply startswith_app_cases in H as [H|(m2 & Hsep & Hm2)].
  - apply (startswith_app_r _ _ rest) in H. cbn [append] in H.
    rewrite <- Hs in H. congruence.
  - apply (no_overlap _ _ _ Hsep) in Hm2; [|discriminate].
    subst m2. rewrite append_nil_r in Hsep.
    assert (Ht : PyStr.startswith sep (String a q ++ rest) = true)
      by (rewrite Hsep; apply startswith_refl_app).
    cbn [append] in Ht. rewrite <- Hs in Ht. congruence.
Qed.

(** Putting the separator back after the text that preceded its first
    occurrence does not move the first occurrence. *)
Lemma split_head_rejoin (s r : string) :
  PyStr.split_head sep (PyStr.split_head sep s ++ sep ++ r)
  = PyStr.split_head sep s.
Proof.
  induction s as [|a s IH].
  - cbn [PyStr.split_head append]. unfold sep at 2. cbn [append PyStr.split_head].
    change (String c0 (tail ++ r)) with (sep ++ r).
    now rewrite startswith_refl_app.
  - cbn [PyStr.split_head]. destruct (PyStr.startswith sep (String a s)) eqn:E.
    + unfold sep at 2. cbn [append PyStr.split_head].
      change (String c0 (tail ++ r)) with (sep ++ r).
      now rewrite startswith_refl_app.
    + cbn [append PyStr.split_head].
      rewrite (not_before_first a s r E). now rewrite IH.
Qed.

End StringSearch.

(** * The README section *)

Section ReadmeFacts.

Import Readme.

Lemma after_first_unfold (sep s : string) :
  after_first sep s
  = match s with
    | EmptyString => None
    | String _ s' =>
        if PyStr.startswith sep s
        then Some (PyStr.drop (String.length sep) s)
        else after_first sep s'
    end.
Proof. destruct s; reflexivity. Qed.

Lemma split_head_unfold (sep s : string) :
  PyStr.split_head sep s
  = match s with
    | EmptyString => EmptyString
    | String c s' =>
        if PyStr.startswith sep s then EmptyString
        else String c (PyStr.split_head sep s')
    end.
Proof. destruct s; reflexivity. Qed.

Lemma start_marker_shape :
  start_marker = String "<" (PyStr.drop 1 start_marker)
  /\ PyStr.occurs "<" (PyStr.drop 1 start_marker) = false.
Proof. split; reflexivity. Qed.

(** In [q ++ start_marker ++ r], where [q] is what preceded the first
    start marker of some text, the first start marker is the one written
    after [q]. *)
Lemma split_head_start_rejoin (s r : string) :
  PyStr.split_head start_marker (PyStr.split_head start_marker s ++ start_marker ++ r)
  = PyStr.split_head start_marker s.
Proof.
  destruct start_marker_shape as [Hshape Hfresh].
  rewrite Hshape. apply split_head_rejoin. exact Hfresh.
Qed.

Lemma after_first_at_head (q r : string) :
  PyStr.split_head start_marker (q ++ start_marker ++ r) = q ->
  after_first start_marker (q ++ start_marker ++ r) = Some r.
Proof.
  induction q as [|a q IH]; intros H.
  - cbn [append]. rewrite after_first_unfold.
    change (start_marker ++ r) with (String "<" (PyStr.drop 1 start_marker ++ r)) at 1.
    cbv iota. rewrite startswith_refl_app. now rewrite drop_app.
  - cbn [append] in *. rewrite split_head_unfold in H. rewrite after_first_unfold.
    destruct (PyStr.startswith start_marker (String a (q ++ start_marker ++ r)));
      [discriminate|].
    injection H as H. apply IH. exact H.
Qed.

(** A text without start marker, followed by the header and a start
    marker: the first start marker is the one after the header. *)
Lemma split_head_after_header (content r : string) :
  PyStr.contains start_marker content = false ->
  PyStr.split_head start_marker
    (content ++ latest_output_header ++ start_marker ++ r)
  = content ++ latest_output_header.
Proof.
  induction content as [|a content IH]; intros Hno.
  - reflexivity.
  - apply contains_cons_false in Hno as [Hhere Hno].
    cbn [append]. rewrite split_head_unfold.
    destruct (PyStr.startswith start_marker
                (String a (content ++ latest_output_header ++ start_marker ++ r)))
      eqn:H.
    + exfalso.
      change (String a (content ++ latest_output_header ++ start_marker ++ r))
        with (String a content ++ latest_output_header ++ start_marker ++ r) in H.
      apply startswith_app_cases in H as [H|(m2 & Hsep & Hm2)]; [congruence|].
      destruct m2 as [|c m2].
      * rewrite append_nil_r in Hsep.
        rewrite Hsep in Hhere at 1.
        rewrite <- (append_nil_r (String a content)) in Hhere at 2.
        rewrite startswith_refl_app in Hhere. discriminate.
      * cbn in Hm2. destruct (Ascii.eqb c _) eqn:E in Hm2; [|discriminate].
        apply Ascii.eqb_eq in E. subst c.
        assert (Hocc : PyStr.occurs (ascii_of_nat 10) start_marker = true)
          by (rewrite Hsep; apply occurs_app_mid).
        vm_compute in Hocc. discriminate.
    + now rewrite IH.
Qed.

Lemma updated_content_when_both (content output_text : string) :
  PyStr.contains start_marker content = true ->
  PyStr.contains end_marker content = true ->
  updated_content content output_text
  = PyStr.split_head start_marker content ++ new_section output_text.
Proof. intros H1 H2. unfold updated_content. now rewrite H1, H2. Qed.

Lemma updated_content_when_no_start (content output_text : string) :
  PyStr.contains start_marker content = false ->
  updated_content content output_text
  = content ++ latest_output_header ++ new_section output_text ++ PyStr.nl.
Proof. intros H1. unfold updated_content. now rewrite H1. Qed.

Lemma new_section_fenced output_text :
  new_section output_text = start_marker ++ fenced output_text ++ end_marker.
Proof.
  unfold new_section, fenced. repeat rewrite append_assoc. reflexivity.
Qed.

(** A document that ends with a freshly written section, possibly
    followed by more text, whose first start marker is the one of that
    section. *)
Lemma section_content_of_written (q output_text t : string) :
  PyStr.split_head start_marker (q ++ start_marker ++ fenced output_text ++ end_marker ++ t)
  = q ->
  section_content (q ++ new_section output_text ++ t)
  = Some (PyStr.split_head end_marker (fenced output_text ++ end_marker)).
Proof.
  intros Hq. unfold section_content.
  rewrite new_section_fenced. repeat rewrite append_assoc.
  rewrite (after_first_at_head _ _ Hq).
  rewrite contains_app_mid. now rewrite split_head_tail_irrelevant.
Qed.

End ReadmeFacts.

Section ReadmeClaims.

Import Readme.

(** Updating a document that ends with a freshly written section (and
    possibly more text [t]) whose start marker is the first of the
    document. *)
Lemma updated_content_of_written (q output_text t : string) :
  (forall r, PyStr.split_head start_marker (q ++ start_marker ++ r) = q) ->
  updated_content (q ++ new_section output_text ++ t) output_text
  = q ++ new_section output_text.
Proof.
  intros Hq. rewrite updated_content_when_both.
  - rewrite new_section_fenced. repeat rewrite append_assoc. now rewrite Hq.
  - rewrite new_section_fenced. repeat rewrite append_assoc.
    apply contains_app_mid.
  - rewrite new_section_fenced.
    replace (q ++ (start_marker ++ fenced output_text ++ end_marker) ++ t)
      with ((q ++ start_marker ++ fenced output_text) ++ end_marker ++ t)
      by (repeat rewrite append_assoc; reflexivity).
    apply contains_app_mid.
Qed.

Lemma section_content_written (q output_text t : string) :
  (forall r, PyStr.split_head start_marker (q ++ start_marker ++ r) = q) ->
  section_content (q ++ new_section output_text ++ t)
  = Some (PyStr.split_head end_marker (fenced output_text ++ end_marker)).
Proof. intros Hq. apply section_content_of_written. apply Hq. Qed.

Lemma updated_twice (content output_text : string) :
  PyStr.contains start_marker content = false
  \/ PyStr.contains end_marker content = true ->
  let d1 := updated_content content output_text in
  let d2 := updated_content d1 output_text in
  section_content d1
  = Some (PyStr.split_head end_marker (fenced output_text ++ end_marker))
  /\ section_content d2
     = Some (PyStr.split_head end_marker (fenced output_text ++ end_marker)).
Proof.
  intros Hdoc d1 d2. subst d2 d1.
  destruct (PyStr.contains start_marker content) eqn:Hs.
  - destruct Hdoc as [Hdoc|He]; [discriminate|].
    rewrite (updated_content_when_both _ _ Hs He).
    set (q := PyStr.split_head start_marker content).
    assert (Hq : forall r, PyStr.split_head start_marker (q ++ start_marker ++ r) = q)
      by (intros r; apply split_head_start_rejoin).
    rewrite <- (append_nil_r (new_section output_text)) at 1 2.
    rewrite (updated_content_of_written q output_text "" Hq).
    split.
    + apply (section_content_written q output_text "" Hq).
    + rewrite <- (append_nil_r (new_section output_text)).
      apply (section_content_written q output_text "" Hq).
  - rewrite (updated_content_when_no_start _ _ Hs).
    set (q := content ++ latest_output_header).
    assert (Hq : forall r, PyStr.split_head start_marker (q ++ start_marker ++ r) = q).
    { intros r. unfold q. rewrite append_assoc.
      now rewrite split_head_after_header. }
    replace (content ++ latest_output_header ++ new_section output_text ++ PyStr.nl)
      with (q ++ new_section output_text ++ PyStr.nl)
      by (unfold q; now rewrite append_assoc).
    rewrite (updated_content_of_written q output_text PyStr.nl Hq).
    split.
    + apply (section_content_written q output_text PyStr.nl Hq).
    + rewrite <- (append_nil_r (new_section output_text)).
      apply (section_content_written q output_text "" Hq).
Qed.

(** With both markers in the document, all that follows the first start
    marker is replaced by the new section. *)
Lemma update_discards_what_follows (content output_text : string) :
  PyStr.contains start_marker content = true ->
  PyStr.contains end_marker content = true ->
  update_readme_with_output output_text (Some content)
  = Some (PyStr.split_head start_marker content ++ new_section output_text).
Proof.
  intros Hs He. cbn. now rewrite updated_content_when_both.
Qed.

End ReadmeClaims.




(** C8, at the failing input.  The document holds both markers and a footer
    after the end marker; the update keeps the text before the start marker
    and writes the new section, and the footer is gone. *)
Theorem text_after_end_marker_is_lost :
  let doc := "# Notes" ++ PyStr.nl ++ Readme.start_marker ++ PyStr.nl ++ "old"
               ++ PyStr.nl ++ Readme.end_marker ++ PyStr.nl ++ "Footer" in
  PyStr.contains Readme.start_marker doc = true
  /\ PyStr.contains Readme.end_marker doc = true
  /\ Readme.update_readme_with_output "new" (Some doc)
     = Some ("# Notes" ++ PyStr.nl ++ Readme.new_section "new")
  /\ PyStr.contains "Footer" doc = true
  /\ PyStr.contains "Footer" ("# Notes" ++ PyStr.nl ++ Readme.new_section "new")
     = false.
Proof. cbv zeta. repeat split; vm_compute; reflexivity. Qed.

(** C2, at the failing input.  The globals handed to [exec] bind
    [__builtins__] to the whole [builtins] module, so a candidate reaches
    [open] and [__import__], which are not among the six primitives listed
    by name. *)
Theorem safe_space_exposes_builtins :
  resolve builtin_functions safe_space "open" = Some (BuiltinFunction "open")
  /\ resolve builtin_functions safe_space "__import__"
     = Some (BuiltinFunction "__import__")
  /\ existsb (String.eqb "open") allow_list = false
  /\ existsb (String.eqb "__import__") allow_list = false.
Proof. repeat split; reflexivity. Qed.

(** * More on the log of a run *)

Section LogFacts.

Variable task : string.
Variable max_tries : Z.

Ltac strip_event pre H :=
  destruct pre as [|? pre]; cbn [app] in H;
  [ try discriminate H
  | let H' := fresh "Hhead" in injection H as H' H; try discriminate H' ].

(** Where an execution stands in the log of the rounds from [j] on, and
    what follows it. *)
Lemma rounds_from_execution j e0 t ret_val :
  rounds_from task max_tries j e0 t ret_val ->
  j <= max_tries ->
  forall pre c r post,
    t = (pre ++ Executed c r :: post)%list ->
    exists pre' i e v,
      pre = (pre' ++ [Said (Round i max_tries) info; Generated task e c;
                      Reviewed c task v])%list
      /\ (approved v = true \/ i = max_tries)
      /\ (if worked r
          then post = [Said (CompletedIn i) success] /\ ret_val = r
          else (post = [Said (GaveUp max_tries) error_mood]
                /\ i = max_tries /\ ret_val = r)
               \/ (i < max_tries
                   /\ exists c' post',
                       post = Said TryAgain info
                                :: Said (Round (i + 1) max_tries) info
                                :: Generated task (error r) c' :: post')).
Proof.
  induction 1 as [j e0 c0 v0 rest r1 Hv0 Hlt0 Hrest IH
                 |j e0 c0 v0 r1 Hv0 Hw
                 |j e0 c0 v0 r0 rest r1 Hv0 Hw Hlt0 Hrest IH
                 |j e0 c0 v0 r1 Hw Hj];
    intros Hle pre c r post Heq.
  - do 4 strip_event pre Heq.
    destruct (IH ltac:(lia) pre c r post Heq) as (pre' & i & err & ver & -> & Hv & Hpost).
    exists (Said (Round j max_tries) info :: Generated task e0 c0
              :: Reviewed c0 task v0 :: Said ReviewerFoundIssuesSendingBack info
              :: pre'), i, err, ver.
    subst. auto.
  - do 3 strip_event pre Heq.
    destruct pre as [|x pre]; cbn [app] in Heq.
    + injection Heq as Hc Hr Hpost. subst.
      exists [], j, e0, v0. rewrite Hw.
      repeat split; auto. destruct Hv0; [auto|right; lia].
    + injection Heq as _ Heq. strip_event pre Heq. destruct pre; discriminate.
  - do 3 strip_event pre Heq.
    destruct pre as [|x pre]; cbn [app] in Heq.
    + injection Heq as Hc Hr Hpost. subst.
      exists [], j, e0, v0. rewrite Hw.
      repeat split; auto. right. split; [exact Hlt0|].
      apply rounds_from_starts in Hrest as (c' & post' & ->). eauto.
    + injection Heq as Hx Heq. strip_event pre Heq.
      destruct (IH ltac:(lia) pre c r post Heq) as (pre' & i & err & ver & -> & Hv & Hpost).
      exists (Said (Round j max_tries) info :: Generated task e0 c0
                :: Reviewed c0 task v0 :: Executed c0 r0 :: Said TryAgain info
                :: pre'), i, err, ver.
      subst. auto.
  - do 3 strip_event pre Heq.
    destruct pre as [|x pre]; cbn [app] in Heq.
    + injection Heq as Hc Hr Hpost. subst.
      exists [], max_tries, e0, v0. rewrite Hw.
      repeat split; auto.
    + injection Heq as _ Heq. strip_event pre Heq. destruct pre; discriminate.
Qed.

(** The last round ends with an execution, whatever the verdict. *)
Lemma rounds_from_last_round j e0 t ret_val :
  rounds_from task max_tries j e0 t ret_val ->
  forall pre e c v post,
    t = (pre ++ Said (Round max_tries max_tries) info :: Generated task e c
             :: Reviewed c task v :: post)%list ->
    exists final, post = [Executed c ret_val; final].
Proof.
  induction 1 as [j e0 c0 v0 rest r1 Hv0 Hlt0 Hrest IH
                 |j e0 c0 v0 r1 Hv0 Hw
                 |j e0 c0 v0 r0 rest r1 Hv0 Hw Hlt0 Hrest IH
                 |j e0 c0 v0 r1 Hw Hj];
    intros pre e c v post Heq.
  - destruct pre as [|x pre]; cbn [app] in Heq.
    + injection Heq as Hi. lia.
    + injection Heq as _ Heq. do 3 strip_event pre Heq. eapply IH; eauto.
  - destruct pre as [|x pre]; cbn [app] in Heq.
    + injection Heq as Hi He Hc Hvv Hpost. subst. eauto.
    + injection Heq as _ Heq. do 4 strip_event pre Heq. destruct pre; discriminate.
  - destruct pre as [|x pre]; cbn [app] in Heq.
    + injection Heq as Hi. lia.
    + injection Heq as _ Heq. do 4 strip_event pre Heq. eapply IH; eauto.
  - destruct pre as [|x pre]; cbn [app] in Heq.
    + injection Heq as Hi He Hc Hvv Hpost. subst. eauto.
    + injection Heq as _ Heq. do 4 strip_event pre Heq. destruct pre; discriminate.
Qed.

End LogFacts.

Section RunLog.

Context {S : Type}.
Variable gen : string -> option string -> S -> string * S.
Variable rev : string -> string -> S -> verdict * S.
Variable run : string -> S -> outcome * S.
Variable task : string.
Variable max_tries : Z.
Variable s : S.

(** The log of a run: the first announcement alone when there is no try,
    else the first announcement and the rounds from 1 on. *)
Lemma observed_run_log :
  (max_tries < 1
   /\ snd (snd (observed_run gen rev run task max_tries s))
      = [Said (NewTask task) info])
  \/ (1 <= max_tries
      /\ exists r t,
          fst (observed_run gen rev run task max_tries s) = Ok r
          /\ snd (snd (observed_run gen rev run task max_tries s))
             = Said (NewTask task) info :: t
          /\ rounds_from task max_tries 1 None t r).
Proof.
  destruct (Z_lt_ge_dec max_tries 1) as [Hno|Hmax].
  - left. split; [exact Hno|]. now rewrite observed_run_no_tries.
  - right. split; [lia|].
    destruct (observed_run_shape gen rev run task max_tries s) as (r & s' & t & Hrun & Hshape);
      [lia|].
    exists r, t. rewrite Hrun. auto.
Qed.

End RunLog.

(** X1.  In any run, the Runner only executes the candidate that the Coder
    returned and the Reviewer saw in the same round, and only when the
    Reviewer approved it or the round is the last one. *)
Theorem runner_executes_reviewed_candidate
  (S : Type) (gen : string -> option string -> S -> string * S)
  (rev : string -> string -> S -> verdict * S)
  (run : string -> S -> outcome * S) (task : string) (max_tries : Z) (s : S)
  (pre : list event) (c : string) (r : outcome) (post : list event) :
  snd (snd (observed_run gen rev run task max_tries s))
  = (pre ++ Executed c r :: post)%list ->
  exists pre' i e v,
    pre = (pre' ++ [Said (Round i max_tries) info; Generated task e c;
                    Reviewed c task v])%list
    /\ (approved v = true \/ i = max_tries).
Proof.
  intros Htr.
  destruct (observed_run_log gen rev run task max_tries s)
    as [[_ Hlog]|(Hmax & r0 & t & _ & Hlog & Hshape)]; rewrite Hlog in Htr.
  - destruct pre as [|x pre]; [discriminate|]. destruct pre; discriminate.
  - destruct pre as [|x pre]; [discriminate|]. injection Htr as Hx Htr.
    destruct (rounds_from_execution task max_tries 1 None t r0 Hshape Hmax
                pre c r post Htr) as (pre' & i & e & v & -> & Hv & _).
    exists (x :: pre'), i, e, v. auto.
Qed.

Lemma runner_executes_reviewed_candidate_witness :
  exists pre' i e v,
    firstn 12 (snd (snd (observed_run Sample.gen Sample.rev Sample.run "fib" 3 O)))
    = (pre' ++ [Said (Round i 3) info; Generated "fib" e "result = 55";
                Reviewed "result = 55" "fib" v])%list
    /\ (approved v = true \/ i = 3).
Proof.
  apply (runner_executes_reviewed_candidate nat Sample.gen Sample.rev Sample.run
           "fib" 3 O _ "result = 55" (mk_outcome false None (Some "boom"))
           [Said (GaveUp 3) error_mood]).
  reflexivity.
Defined.

(** X2.  In the last round the candidate is executed whatever the
    Reviewer's verdict, and the outcome of that execution is what the run
    returns. *)
Theorem last_round_always_executes
  (S : Type) (gen : string -> option string -> S -> string * S)
  (rev : string -> string -> S -> verdict * S)
  (run : string -> S -> outcome * S) (task : string) (max_tries : Z) (s : S)
  (pre : list event) (e : option string) (c : string) (v : verdict)
  (post : list event) :
  snd (snd (observed_run gen rev run task max_tries s))
  = (pre ++ Said (Round max_tries max_tries) info :: Generated task e c
         :: Reviewed c task v :: post)%list ->
  exists r final,
    post = [Executed c r; final]
    /\ fst (observed_run gen rev run task max_tries s) = Ok r.
Proof.
  intros Htr.
  destruct (observed_run_log gen rev run task max_tries s)
    as [[_ Hlog]|(Hmax & r0 & t & Hret & Hlog & Hshape)]; rewrite Hlog in Htr.
  - destruct pre as [|x pre]; [discriminate|]. destruct pre; discriminate.
  - destruct pre as [|x pre]; [discriminate|]. injection Htr as Hx Htr.
    destruct (rounds_from_last_round task max_tries 1 None t r0 Hshape
                pre e c v post Htr) as (final & ->).
    exists r0, final. auto.
Qed.

Lemma last_round_always_executes_witness :
  exists r final,
    skipn 4 (snd (snd (observed_run Sample.gen Sample.rev Sample.run "fib" 1 O)))
    = [Executed "result = 55" r; final]
    /\ fst (observed_run Sample.gen Sample.rev Sample.run "fib" 1 O) = Ok r.
Proof.
  apply (last_round_always_executes nat Sample.gen Sample.rev Sample.run
           "fib" 1 O [Said (NewTask "fib") info] None "result = 55"
           (mk_verdict false "incomplete")).
  reflexivity.
Defined.

(** X3.  The first execution that works ends the run: nothing follows it
    but the Orchestrator's closing announcement, and its outcome is what
    the run returns. *)
Theorem successful_execution_ends_run
  (S : Type) (gen : string -> option string -> S -> string * S)
  (rev : string -> string -> S -> verdict * S)
  (run : string -> S -> outcome * S) (task : string) (max_tries : Z) (s : S)
  (pre : list event) (c : string) (r : outcome) (post : list event) :
  snd (snd (observed_run gen rev run task max_tries s))
  = (pre ++ Executed c r :: post)%list ->
  worked r = true ->
  (exists i, post = [Said (CompletedIn i) success])
  /\ fst (observed_run gen rev run task max_tries s) = Ok r.
Proof.
  intros Htr Hw.
  destruct (observed_run_log gen rev run task max_tries s)
    as [[_ Hlog]|(Hmax & r0 & t & Hret & Hlog & Hshape)]; rewrite Hlog in Htr.
  - destruct pre as [|x pre]; [discriminate|]. destruct pre; discriminate.
  - destruct pre as [|x pre]; [discriminate|]. injection Htr as Hx Htr.
    destruct (rounds_from_execution task max_tries 1 None t r0 Hshape Hmax
                pre c r post Htr) as (pre' & i & e & v & _ & _ & Hpost).
    rewrite Hw in Hpost. destruct Hpost as [-> ->]. split; [eauto|exact Hret].
Qed.

Lemma successful_execution_ends_run_witness :
  (exists i, [Said (CompletedIn 2) success] = [Said (CompletedIn i) success])
  /\ fst (observed_run Sample.gen Sample2.rev Sample2.run "fib" 3 O)
     = Ok (mk_outcome true (Some "Result: 55") None).
Proof.
  apply (successful_execution_ends_run nat Sample.gen Sample2.rev Sample2.run
           "fib" 3 O
           (firstn 9 (snd (snd (observed_run Sample.gen Sample2.rev Sample2.run
                                  "fib" 3 O))))
           "result = 55" (mk_outcome true (Some "Result: 55") None)).
  - reflexivity.
  - reflexivity.
Defined.

(** X4.  After an execution that fails, either the tries are exhausted, then
    the run ends and returns that failure, or the next round starts and the
    Coder is called with the error text of that failure. *)
Theorem failed_execution_feeds_next_round
  (S : Type) (gen : string -> option string -> S -> string * S)
  (rev : string -> string -> S -> verdict * S)
  (run : string -> S -> outcome * S) (task : string) (max_tries : Z) (s : S)
  (pre : list event) (c : string) (r : outcome) (post : list event) :
  snd (snd (observed_run gen rev run task max_tries s))
  = (pre ++ Executed c r :: post)%list ->
  worked r = false ->
  (post = [Said (GaveUp max_tries) error_mood]
   /\ fst (observed_run gen rev run task max_tries s) = Ok r)
  \/ (exists i c' post',
         i < max_tries
         /\ post = Said TryAgain info :: Said (Round (i + 1) max_tries) info
                     :: Generated task (error r) c' :: post').
Proof.
  intros Htr Hw.
  destruct (observed_run_log gen rev run task max_tries s)
    as [[_ Hlog]|(Hmax & r0 & t & Hret & Hlog & Hshape)]; rewrite Hlog in Htr.
  - destruct pre as [|x pre]; [discriminate|]. destruct pre; discriminate.
  - destruct pre as [|x pre]; [discriminate|]. injection Htr as Hx Htr.
    destruct (rounds_from_execution task max_tries 1 None t r0 Hshape Hmax
                pre c r post Htr) as (pre' & i & e & v & _ & _ & Hpost).
    rewrite Hw in Hpost.
    destruct Hpost as [(-> & _ & ->)|(Hlt & c' & post' & ->)].
    + left. auto.
    + right. exists i, c', post'. auto.
Qed.

Lemma failed_execution_feeds_next_round_witness :
  (skipn 5 (snd (snd (observed_run Sample.gen Sample2.rev Sample2.run "fib" 3 O)))
   = [Said (GaveUp 3) error_mood]
   /\ fst (observed_run Sample.gen Sample2.rev Sample2.run "fib" 3 O)
      = Ok (mk_outcome false None (Some "NameError: x")))
  \/ (exists i c' post',
         i < 3
         /\ skipn 5 (snd (snd (observed_run Sample.gen Sample2.rev Sample2.run
                                 "fib" 3 O)))
            = Said TryAgain info :: Said (Round (i + 1) 3) info
                :: Generated "fib" (error (mk_outcome false None
                                             (Some "NameError: x"))) c'
                :: post').
Proof.
  apply (failed_execution_feeds_next_round nat Sample.gen Sample2.rev Sample2.run
           "fib" 3 O
           (firstn 4 (snd (snd (observed_run Sample.gen Sample2.rev Sample2.run
                                  "fib" 3 O))))
           "result = 55" (mk_outcome false None (Some "NameError: x"))).
  - reflexivity.
  - reflexivity.
Defined.

(** * What the loop returns, lets out and costs, for any agents *)

Section LoopFacts.

Context {W : Type}.
Variable say : message -> mood -> M W unit.
Variable write_code : string -> option string -> M W string.
Variable review : string -> string -> M W verdict.
Variable run_code : string -> M W outcome.
Variable task : string.
Variable max_tries : Z.

Let loop := attempts say write_code review run_code task max_tries.

(** Whatever the loop returns was returned by a call of [run_code]. *)
Lemma attempts_returns_executed (Q : outcome -> Prop) :
  (forall code w r w', run_code code w = (Ok r, w') -> Q r) ->
  forall n i result w r w',
    Z.to_nat (max_tries + 1 - i) = n ->
    i <= max_tries ->
    loop (range i (max_tries + 1)) result w = (Ok r, w') ->
    Q r.
Proof.
  intros HQ. induction n as [|n IH]; intros i result w r w' Hn Hi H; [lia|].
  rewrite range_cons in H by lia. unfold loop in H. cbn [attempts] in H.
  fold loop in H.
  unfold bind at 1 in H.
  destruct (say (Round i max_tries) info w) as [[u|e] w1]; [|discriminate].
  unfold bind at 1 in H.
  match type of H with
  | context [match ?c w1 with _ => _ end] =>
      destruct (c w1) as [[code|e] w2]; [|discriminate]
  end.
  unfold bind at 1 in H.
  destruct (review code task w2) as [[rv|e] w3]; [|discriminate].
  destruct (negb (approved rv) && (i <? max_tries)) eqn:Hrej.
  - apply andb_prop in Hrej as [_ Hlt]. apply Z.ltb_lt in Hlt.
    unfold bind at 1 in H.
    destruct (say ReviewerFoundIssuesSendingBack info w3) as [[u'|e] w4];
      [|discriminate].
    eapply (IH (i + 1)); [lia|lia|exact H].
  - unfold bind at 1 in H.
    destruct (run_code code w3) as [[r0|e] w4] eqn:Hrun; [|discriminate].
    destruct (worked r0).
    + unfold bind, ret in H.
      destruct (say (CompletedIn i) success w4) as [[u'|e] w5]; [|discriminate].
      injection H as <- _. eapply HQ; eauto.
    + unfold bind at 1 in H.
      destruct (i <? max_tries) eqn:Hlt.
      * apply Z.ltb_lt in Hlt.
        destruct (say TryAgain info w4) as [[u'|e] w5]; [|discriminate].
        eapply (IH (i + 1)); [lia|lia|exact H].
      * apply Z.ltb_ge in Hlt.
        destruct (say (GaveUp max_tries) error_mood w4) as [[u'|e] w5];
          [|discriminate].
        rewrite range_nil in H by lia. unfold loop in H.
        cbn [attempts read_result] in H. unfold ret in H.
        injection H as <- _. eapply HQ; eauto.
Qed.

Lemma run_task_returns_executed (Q : outcome -> Prop) w r w' :
  (forall code w r w', run_code code w = (Ok r, w') -> Q r) ->
  run_task say write_code review run_code task max_tries w = (Ok r, w') ->
  Q r.
Proof.
  intros HQ H. unfold run_task in H. unfold bind at 1 in H.
  destruct (say (NewTask task) info w) as [[u|e] w1]; [|discriminate].
  destruct (Z_lt_ge_dec max_tries 1) as [Hno|Hmax].
  - rewrite range_nil in H by lia. discriminate.
  - eapply (attempts_returns_executed Q HQ _ 1); [reflexivity|lia|exact H].
Qed.

(** Exceptions: what the agents let out is all the loop lets out, as long
    as [result] is bound when it is read. *)
Variable P : exn -> Prop.
Hypothesis say_quiet : forall t m, raises_only P (say t m).
Hypothesis write_code_lets : forall t e, raises_only P (write_code t e).
Hypothesis review_lets : forall c t, raises_only P (review c t).
Hypothesis run_code_lets : forall c, raises_only P (run_code c).

Lemma raises_only_ret {A} (a : A) : raises_only P (ret (W:=W) a).
Proof. intros w e w' H. discriminate. Qed.

Lemma raises_only_bind {A B} (c : M W A) (k : A -> M W B) :
  raises_only P c -> (forall a, raises_only P (k a)) ->
  raises_only P (bind c k).
Proof.
  intros Hc Hk w e w' H. unfold bind in H.
  destruct (c w) as [[a|e0] w1] eqn:Hcw.
  - eapply Hk; eauto.
  - injection H as <- _. eapply Hc; eauto.
Qed.

Lemma raises_only_after_code attempt code
      (later_rounds : option outcome -> M W outcome) :
  (forall r0, raises_only P (later_rounds (Some r0))) ->
  raises_only P
    (rv <- review code task ;;
     if negb (approved rv) && (attempt <? max_tries)
     then
       say ReviewerFoundIssuesSendingBack info ;;
       later_rounds (Some (mk_outcome false None (Some (feedback rv))))
     else
       r <- run_code code ;;
       if worked r
       then say (CompletedIn attempt) success ;; ret r
       else
         (if attempt <? max_tries
          then say TryAgain info
          else say (GaveUp max_tries) error_mood) ;;
         later_rounds (Some r))%py.
Proof.
  intros Hlater.
  apply raises_only_bind; [apply review_lets|]. intros rv.
  destruct (negb (approved rv) && (attempt <? max_tries)).
  - apply raises_only_bind; [apply say_quiet|]. intros _. apply Hlater.
  - apply raises_only_bind; [apply run_code_lets|]. intros r.
    destruct (worked r).
    + apply raises_only_bind; [apply say_quiet|]. intros _. apply raises_only_ret.
    + apply raises_only_bind; [|intros _; apply Hlater].
      destruct (attempt <? max_tries); apply say_quiet.
Qed.

Lemma raises_only_attempts_bound rounds :
  forall r0, raises_only P (loop rounds (Some r0)).
Proof.
  induction rounds as [|attempt rest IH]; intros r0; unfold loop;
    cbn [attempts read_result]; fold loop.
  - apply raises_only_ret.
  - apply raises_only_bind; [apply say_quiet|]. intros _.
    apply raises_only_bind.
    + destruct (attempt =? 1); [apply write_code_lets|].
      apply raises_only_bind; [apply raises_only_ret|].
      intros r. apply write_code_lets.
    + intros code. apply raises_only_after_code. exact IH.
Qed.

Lemma raises_only_run_task :
  1 <= max_tries ->
  raises_only P (run_task say write_code review run_code task max_tries).
Proof.
  intros Hmax. unfold run_task.
  apply raises_only_bind; [apply say_quiet|]. intros _.
  rewrite range_cons by lia. cbn [attempts].
  apply raises_only_bind; [apply say_quiet|]. intros _.
  apply raises_only_bind; [cbn; apply write_code_lets|].
  intros code. apply raises_only_after_code.
  intros r0. apply raises_only_attempts_bound.
Qed.

End LoopFacts.

Section LoopCosts.

Context {W : Type}.
Variable measure : W -> Z.

Lemma costs_ret {A} (a : A) : costs measure 0 (ret (W:=W) a).
Proof. intros w. cbn. lia. Qed.

Lemma costs_raise {A} (e : exn) : costs measure 0 (raise (W:=W) (A:=A) e).
Proof. intros w. cbn. lia. Qed.

Lemma costs_more {A} (c : M W A) k k' :
  k <= k' -> costs measure k c -> costs measure k' c.
Proof. intros Hk Hc w. specialize (Hc w). lia. Qed.

Lemma costs_bind {A B} (c : M W A) (f : A -> M W B) k1 k2 :
  0 <= k2 ->
  costs measure k1 c -> (forall a, costs measure k2 (f a)) ->
  costs measure (k1 + k2) (bind c f).
Proof.
  intros Hk2 Hc Hf w. unfold bind. specialize (Hc w).
  destruct (c w) as [[a|e] w1]; cbn [snd] in *; [|lia].
  specialize (Hf a w1). lia.
Qed.

Lemma costs_try {A} (c : M W A) (handler : exn -> option (M W A)) k1 k2 :
  0 <= k2 ->
  costs measure k1 c ->
  (forall e h, handler e = Some h -> costs measure k2 h) ->
  costs measure (k1 + k2) (try_except c handler).
Proof.
  intros Hk2 Hc Hh w. unfold try_except. specialize (Hc w).
  destruct (c w) as [[a|e] w1]; cbn [snd] in *; [lia|].
  destruct (handler e) as [h|] eqn:He; cbn [snd]; [|lia].
  specialize (Hh e h He w1). lia.
Qed.

Variable say : message -> mood -> M W unit.
Variable write_code : string -> option string -> M W string.
Variable review : string -> string -> M W verdict.
Variable run_code : string -> M W outcome.
Variable task : string.
Variable max_tries : Z.
Variables kw kr kx : Z.
Hypothesis kw_pos : 0 <= kw.
Hypothesis kr_pos : 0 <= kr.
Hypothesis kx_pos : 0 <= kx.
Hypothesis say_free : forall t m, costs measure 0 (say t m).
Hypothesis write_code_costs : forall t e, costs measure kw (write_code t e).
Hypothesis review_costs : forall c t, costs measure kr (review c t).
Hypothesis run_code_costs : forall c, costs measure kx (run_code c).

Lemma costs_attempts rounds :
  forall result,
    costs measure ((kw + kr + kx) * Z.of_nat (List.length rounds))
          (attempts say write_code review run_code task max_tries rounds result).
Proof.
  induction rounds as [|attempt rest IH]; intros result; cbn [attempts].
  - destruct result; cbn [read_result List.length];
      [apply (costs_more _ 0); [nia|apply costs_ret]
      |apply (costs_more _ 0); [nia|apply costs_raise]].
  - set (tail_cost := (kw + kr + kx) * Z.of_nat (List.length rest)).
    assert (Htail : 0 <= tail_cost) by (unfold tail_cost; nia).
    apply (costs_more _ (0 + (kw + (kr + (kx + tail_cost))))).
    { unfold tail_cost. cbn [List.length]. nia. }
    apply costs_bind; [lia|apply say_free|]. intros _.
    apply costs_bind; [lia| |].
    + destruct (attempt =? 1); [apply write_code_costs|].
      apply (costs_more _ (0 + kw)); [lia|].
      apply costs_bind; [lia| |intros r; apply write_code_costs].
      destruct result; [apply costs_ret|apply costs_raise].
    + intros code.
      apply costs_bind; [lia|apply review_costs|]. intros rv.
      destruct (negb (approved rv) && (attempt <? max_tries)).
      * apply (costs_more _ (0 + tail_cost)); [lia|].
        apply costs_bind; [lia|apply say_free|]. intros _. apply IH.
      * apply costs_bind; [lia|apply run_code_costs|]. intros r.
        destruct (worked r).
        -- apply (costs_more _ (0 + 0)); [lia|].
           apply costs_bind; [lia|apply say_free|]. intros _. apply costs_ret.
        -- apply (costs_more _ (0 + tail_cost)); [lia|].
           apply costs_bind; [lia| |intros _; apply IH].
           destruct (attempt <? max_tries); apply say_free.
Qed.

Lemma costs_run_task :
  costs measure ((kw + kr + kx) * Z.max 0 max_tries)
        (run_task say write_code review run_code task max_tries).
Proof.
  unfold run_task.
  apply (costs_more _ (0 + (kw + kr + kx)
                             * Z.of_nat (List.length (range 1 (max_tries + 1))))).
  { unfold range. rewrite length_map, length_seq. nia. }
  apply costs_bind; [nia|apply say_free|]. intros _. apply costs_attempts.
Qed.

End LoopCosts.

(** * The loop with the agents of the program *)

Section ProgramLoop.

Variable Env : Type.
Variable create : request -> Env -> completion * Env.
Variable py_exec : string -> dict global_value -> Env -> exec_outcome * Env.

Lemma run_code_returns_well_formed code (w : World Env) r :
  fst (ExecutorAgent_run_code Env py_exec code w) = Ok r -> well_formed r.
Proof.
  intros H.
  assert (Hfail : forall e,
             (if isinstance e "SyntaxError" then
                Ok (mk_outcome false None
                      (Some ("Syntax error on line " ++ fmt_int_or_none (exc_lineno e)
                               ++ ": " ++ fmt_str_or_none (exc_msg e))))
              else if isinstance e "NameError" then
                Ok (mk_outcome false None
                      (Some ("Variable or function not found: " ++ exc_str e)))
              else if isinstance e "Exception" then
                Ok (mk_outcome false None (Some (exc_type e ++ ": " ++ exc_str e)))
              else Raise e) = Ok r -> well_formed r).
  { intros e He. right.
    destruct (isinstance e "SyntaxError");
      [|destruct (isinstance e "NameError");
        [|destruct (isinstance e "Exception"); [|discriminate]]];
      injection He as <-; cbn; repeat split; eexists; (split; [reflexivity|]);
      try discriminate.
    destruct (exc_type e); discriminate. }
  destruct (py_exec code safe_space (env w)) as [[local_vars printed|e] env'] eqn:Hexec.
  - rewrite (run_code_when_exec_completes Env py_exec _ _ _ _ _ Hexec) in H.
    destruct (first_callable conventional_names local_vars) as [[v|e]|];
      [| apply (Hfail e H) |];
      injection H as <-; left; cbn; repeat split; eauto.
  - rewrite (run_code_when_exec_raises Env py_exec _ _ _ _ Hexec) in H.
    apply (Hfail e H).
Qed.

Lemma say_effect name t m (w : World Env) :
  let w' := snd (Agent_say Env name t m w) in
  coder_attempt w' = coder_attempt w /\ sent w' = sent w.
Proof. cbn. auto. Qed.

(** One call of [review]: exactly one request is sent and the Coder's
    counter is not touched. *)
Lemma review_effect code task (w : World Env) :
  let w' := snd (ReviewerAgent_review Env create code task w) in
  coder_attempt w' = coder_attempt w
  /\ sent w' = (sent w ++ [reviewer_request (review_prompt code task)])%list.
Proof.
  unfold ReviewerAgent_review, try_except, bind, chat_completion, Agent_say, ret, raise.
  cbv beta. cbn [env coder_attempt sent console].
  destruct (create _ _) as [[[review|]|e] env'];
    [destruct (PyStr.contains "APPROVED" (PyStr.upper review))
    |destruct (basic_issues code)|destruct (basic_issues code)];
    cbn; auto.
Qed.

(** One call of [run_code]: no request is sent and the Coder's counter is
    not touched. *)
Lemma run_code_effect code (w : World Env) :
  let w' := snd (ExecutorAgent_run_code Env py_exec code w) in
  coder_attempt w' = coder_attempt w /\ sent w' = sent w.
Proof.
  unfold ExecutorAgent_run_code, try_except, bind, exec_, Agent_say, ret.
  cbv beta. cbn [env coder_attempt sent console].
  destruct (py_exec code safe_space (env w)) as [[local_vars printed|e] env'].
  - rewrite call_conventional_spec.
    destruct (first_callable conventional_names local_vars) as [[v|e]|].
    + cbn. auto.
    + destruct (isinstance e "SyntaxError");
        [|destruct (isinstance e "NameError");
          [|destruct (isinstance e "Exception")]]; cbn; auto.
    + cbn. auto.
  - destruct (isinstance e "SyntaxError");
      [|destruct (isinstance e "NameError");
        [|destruct (isinstance e "Exception")]]; cbn; auto.
Qed.

Let not_exception (e : exn) : Prop := isinstance e "Exception" = false.

Lemma say_raises_nothing name t m :
  raises_only not_exception (Agent_say Env name t m).
Proof. intros w e w' H. discriminate. Qed.

Lemma write_code_raises_only task error_msg :
  raises_only not_exception (CoderAgent_write_code Env create task error_msg).
Proof.
  intros w e w' H.
  destruct (write_code_digests Env create task error_msg w)
    as [[code Hok]|(e0 & req & env' & Hr & _ & He)]; rewrite H in *; cbn in *.
  - discriminate.
  - injection Hr as ->. exact He.
Qed.

Lemma review_raises_nothing code task :
  raises_only not_exception (ReviewerAgent_review Env create code task).
Proof.
  intros w e w' H.
  destruct (review_digests Env create code task w) as [v Hv].
  rewrite H in Hv. discriminate.
Qed.

Lemma run_code_raises_only code :
  raises_only not_exception (ExecutorAgent_run_code Env py_exec code).
Proof.
  intros w e w' H.
  destruct (run_code_digests Env py_exec code w) as [[r Hr]|(e0 & Hr & He)];
    rewrite H in Hr; cbn in Hr.
  - discriminate.
  - injection Hr as ->. exact He.
Qed.

Lemma program_run_task_raises_only task max_tries :
  1 <= max_tries ->
  raises_only not_exception (Orchestrator_run_task Env create py_exec task max_tries).
Proof.
  intros Hmax. unfold Orchestrator_run_task.
  apply raises_only_run_task; auto.
  - intros t m. apply say_raises_nothing.
  - intros t e. apply write_code_raises_only.
  - intros c t. apply review_raises_nothing.
  - intros c. apply run_code_raises_only.
Qed.

Lemma program_run_task_requests task max_tries :
  costs requests_sent ((1 + 1 + 0) * Z.max 0 max_tries)
        (Orchestrator_run_task Env create py_exec task max_tries).
Proof.
  unfold Orchestrator_run_task. apply costs_run_task; try lia.
  - intros t m w. destruct (say_effect "Orchestrator" t m w) as [_ Hs].
    unfold requests_sent. rewrite Hs. lia.
  - intros t e w. destruct (write_code_effect Env create t e w) as [_ Hs].
    unfold requests_sent. rewrite Hs, length_app. cbn [List.length]. lia.
  - intros c t w. destruct (review_effect c t w) as [_ Hs].
    unfold requests_sent. rewrite Hs, length_app. cbn [List.length]. lia.
  - intros c w. destruct (run_code_effect c w) as [_ Hs].
    unfold requests_sent. rewrite Hs. lia.
Qed.

Lemma program_run_task_counter task max_tries :
  costs coder_attempt ((1 + 0 + 0) * Z.max 0 max_tries)
        (Orchestrator_run_task Env create py_exec task max_tries).
Proof.
  unfold Orchestrator_run_task. apply costs_run_task; try lia.
  - intros t m w. destruct (say_effect "Orchestrator" t m w) as [Ha _]. lia.
  - intros t e w. destruct (write_code_effect Env create t e w) as [Ha _]. lia.
  - intros c t w. destruct (review_effect c t w) as [Ha _]. lia.
  - intros c w. destruct (run_code_effect c w) as [Ha _]. lia.
Qed.

End ProgramLoop.

(** X5.  Every dict [run_code] returns has one of two shapes: a success with
    an output text and no error, or a failure with no output and a
    non-empty error text. *)
Theorem run_code_outcome_well_formed
  (Env : Type)
  (py_exec : string -> dict global_value -> Env -> exec_outcome * Env)
  (code : string) (w : World Env) (r : outcome) :
  fst (ExecutorAgent_run_code Env py_exec code w) = Ok r -> well_formed r.
Proof. apply run_code_returns_well_formed. Qed.

Lemma run_code_outcome_well_formed_witness :
  well_formed (mk_outcome false None (Some "Syntax error on line 1: invalid syntax")).
Proof.
  apply (run_code_outcome_well_formed unit SampleWorld.unparsable "def f(:"
           SampleWorld.fresh).
  reflexivity.
Defined.

(** X6.  What [run_task] returns to [main] and [custom_mode] is always a
    dict built by [run_code], never the placeholder the Orchestrator builds
    after a rejection; so it has one of the two shapes, and the text the
    callers show for it ([output] on success, [error] otherwise) is a text,
    not None. *)
Theorem run_task_result_can_be_shown
  (Env : Type) (create : request -> Env -> completion * Env)
  (py_exec : string -> dict global_value -> Env -> exec_outcome * Env)
  (task : string) (max_tries : Z) (w w' : World Env) (r : outcome) :
  Orchestrator_run_task Env create py_exec task max_tries w = (Ok r, w') ->
  well_formed r /\ exists text, shown r = Some text.
Proof.
  intros H.
  assert (Hwf : well_formed r).
  { unfold Orchestrator_run_task in H.
    eapply (run_task_returns_executed _ _ _ _ _ _ well_formed); [|exact H].
    intros code w1 r1 w1' Hrun.
    apply (run_code_returns_well_formed Env py_exec code w1).
    now rewrite Hrun. }
  split; [exact Hwf|].
  unfold shown.
  destruct Hwf as [(-> & [text ->] & _)|(-> & _ & detail & -> & _)]; eauto.
Qed.

Lemma run_task_result_can_be_shown_witness :
  well_formed (mk_outcome true (Some "Result: 55") None)
  /\ exists text, shown (mk_outcome true (Some "Result: 55") None) = Some text.
Proof.
  apply (run_task_result_can_be_shown unit SampleWorld.create SampleWorld.py_exec
           "fib" 3 SampleWorld.fresh
           (snd (Orchestrator_run_task unit SampleWorld.create SampleWorld.py_exec
                   "fib" 3 SampleWorld.fresh))).
  reflexivity.
Defined.



(** X8.  One invocation of [run_task] sends at most [2 * max_tries]
    requests to the completion service (one per call of the Coder, one per
    call of the Reviewer, none from the Executor) and advances the Coder's
    counter by at most [max_tries]; with [max_tries <= 0] it sends none. *)
Theorem run_task_request_budget
  (Env : Type) (create : request -> Env -> completion * Env)
  (py_exec : string -> dict global_value -> Env -> exec_outcome * Env)
  (task : string) (max_tries : Z) (w : World Env) :
  let w' := snd (Orchestrator_run_task Env create py_exec task max_tries w) in
  requests_sent w' <= requests_sent w + 2 * Z.max 0 max_tries
  /\ coder_attempt w' <= coder_attempt w + Z.max 0 max_tries.
Proof.
  cbv zeta. split.
  - pose proof (program_run_task_requests Env create py_exec task max_tries w). lia.
  - pose proof (program_run_task_counter Env create py_exec task max_tries w). lia.
Qed.

(** * More facts about strings *)

Section StringCleaning.

Lemma upper_app (a b : string) :
  PyStr.upper (a ++ b) = PyStr.upper a ++ PyStr.upper b.
Proof. induction a as [|c a IH]; cbn; [reflexivity|now rewrite IH]. Qed.

Lemma contains_skip (x a b : string) :
  PyStr.contains x b = true -> PyStr.contains x (a ++ b) = true.
Proof.
  intros H. induction a as [|c a IH]; [exact H|].
  cbn [append]. rewrite contains_unfold, IH.
  destruct (PyStr.startswith x _); reflexivity.
Qed.

Lemma contains_app_l (x a b : string) :
  PyStr.contains x a = true -> PyStr.contains x (a ++ b) = true.
Proof.
  induction a as [|c a IH]; intros H.
  - rewrite contains_unfold in H.
    destruct (PyStr.startswith x "") eqn:E; [|discriminate].
    destruct x; [|discriminate]. destruct b; reflexivity.
  - rewrite contains_unfold in H. cbn [append]. rewrite contains_unfold.
    destruct (PyStr.startswith x (String c a)) eqn:E.
    + change (String c (a ++ b)) with (String c a ++ b).
      now rewrite (startswith_app_r _ _ _ E).
    + rewrite (IH H). destruct (PyStr.startswith x (String c (a ++ b))); reflexivity.
Qed.

Lemma startswith_decomp (p s : string) :
  PyStr.startswith p s = true -> exists r, s = p ++ r.
Proof.
  revert s. induction p as [|a p IH]; intros s H.
  - exists s. reflexivity.
  - destruct s as [|b s]; [discriminate|]. cbn in H.
    destruct (Ascii.eqb a b) eqn:E; [|discriminate].
    apply Ascii.eqb_eq in E. subst b.
    destruct (IH s H) as [r ->]. exists r. reflexivity.
Qed.

(** *** Removing the code "```"s *)

Lemma remove_fence_step (c : ascii) (s : string) :
  PyStr.remove "```" (String c s)
  = if PyStr.startswith "```" (String c s)
    then PyStr.remove "```" (PyStr.drop 2 s)
    else String c (PyStr.remove "```" s).
Proof.
  unfold PyStr.remove. cbn [PyStr.remove_from].
  destruct (PyStr.startswith "```" (String c s)) eqn:E; [|reflexivity].
  apply startswith_decomp in E as [r E]. injection E as _ ->. reflexivity.
Qed.

(** Two backquotes at the head of the cleaned text were at the head of the
    text. *)
Lemma remove_fence_head (s : string) :
  PyStr.startswith "``" s = false ->
  PyStr.startswith "``" (PyStr.remove "```" s) = false.
Proof.
  intros H. destruct s as [|c s]; [reflexivity|].
  rewrite remove_fence_step.
  assert (Hno : PyStr.startswith "```" (String c s) = false).
  { cbn [PyStr.startswith] in H |- *. destruct (Ascii.eqb "`" c); [|reflexivity].
    destruct s as [|d s]; [reflexivity|].
    destruct (Ascii.eqb "`" d); [discriminate|reflexivity]. }
  rewrite Hno. cbn [PyStr.startswith] in H |- *.
  destruct (Ascii.eqb "`" c); [|reflexivity].
  destruct s as [|d s]; [reflexivity|].
  rewrite remove_fence_step.
  assert (Hd : Ascii.eqb "`" d = false)
    by (destruct (Ascii.eqb "`" d); [discriminate|reflexivity]).
  cbn [PyStr.startswith]. rewrite Hd. cbn [PyStr.startswith]. now rewrite Hd.
Qed.

Lemma remove_fence_leaves_none (n : nat) :
  forall s, (String.length s <= n)%nat ->
            PyStr.contains "```" (PyStr.remove "```" s) = false.
Proof.
  induction n as [|n IH]; intros s Hlen.
  - destruct s; [reflexivity|cbn in Hlen; lia].
  - destruct s as [|c s]; [reflexivity|]. cbn in Hlen.
    rewrite remove_fence_step.
    destruct (PyStr.startswith "```" (String c s)) eqn:E.
    + apply IH. apply startswith_decomp in E as [r E]. injection E as _ ->.
      cbn [String.length append PyStr.drop] in Hlen |- *. lia.
    + rewrite contains_unfold, (IH s) by lia.
      assert (Hhead : PyStr.startswith "```" (String c (PyStr.remove "```" s)) = false).
      { cbn [PyStr.startswith] in E |- *. destruct (Ascii.eqb "`" c); [|reflexivity].
        apply (remove_fence_head s). exact E. }
      now rewrite Hhead.
Qed.

(** *** Stripping *)

Lemma lstrip_suffix (s : string) : exists pre, s = pre ++ PyStr.lstrip s.
Proof.
  induction s as [|c s [pre IH]].
  - exists "". reflexivity.
  - cbn [PyStr.lstrip]. destruct (PyStr.isspace c).
    + exists (String c pre). cbn. now rewrite <- IH.
    + exists "". reflexivity.
Qed.

Lemma rstrip_prefix (s : string) : exists suf, s = PyStr.rstrip s ++ suf.
Proof.
  induction s as [|c s [suf IH]].
  - exists "". reflexivity.
  - cbn [PyStr.rstrip]. destruct (PyStr.rstrip s) as [|d r] eqn:E.
    + destruct (PyStr.isspace c).
      * exists (String c s). reflexivity.
      * exists s. reflexivity.
    + exists suf. change (String c s = String c (String d r ++ suf)).
      now rewrite <- IH.
Qed.

Lemma strip_keeps_absent (x s : string) :
  PyStr.contains x s = false -> PyStr.contains x (PyStr.strip s) = false.
Proof.
  intros H. unfold PyStr.strip.
  destruct (PyStr.contains x (PyStr.rstrip (PyStr.lstrip s))) eqn:E; [|reflexivity].
  destruct (rstrip_prefix (PyStr.lstrip s)) as [suf Hsuf].
  destruct (lstrip_suffix s) as [pre Hpre].
  apply (contains_app_l _ _ suf) in E. rewrite <- Hsuf in E.
  apply (contains_skip _ pre) in E. rewrite <- Hpre in E. congruence.
Qed.

Lemma lstrip_length (s : string) :
  (String.length (PyStr.lstrip s) <= String.length s)%nat.
Proof.
  induction s as [|c s IH]; cbn; [lia|].
  destruct (PyStr.isspace c); cbn; lia.
Qed.

Lemma rstrip_idempotent (s : string) :
  PyStr.rstrip (PyStr.rstrip s) = PyStr.rstrip s.
Proof.
  induction s as [|c s IH]; [reflexivity|].
  cbn [PyStr.rstrip]. destruct (PyStr.rstrip s) as [|d r] eqn:E.
  - destruct (PyStr.isspace c) eqn:Hc; [reflexivity|].
    cbn [PyStr.rstrip]. now rewrite Hc.
  - cbn [PyStr.rstrip] in *. rewrite IH. reflexivity.
Qed.

Lemma lstrip_fixed_rstrip (t : string) :
  PyStr.lstrip t = t -> PyStr.lstrip (PyStr.rstrip t) = PyStr.rstrip t.
Proof.
  intros H. destruct t as [|c t]; [reflexivity|].
  cbn [PyStr.lstrip] in H.
  destruct (PyStr.isspace c) eqn:Hc.
  - exfalso. pose proof (lstrip_length t) as Hl. rewrite H in Hl. cbn in Hl. lia.
  - cbn [PyStr.rstrip]. destruct (PyStr.rstrip t); rewrite ?Hc;
      cbn [PyStr.lstrip]; now rewrite Hc.
Qed.

Lemma lstrip_idempotent (s : string) :
  PyStr.lstrip (PyStr.lstrip s) = PyStr.lstrip s.
Proof.
  induction s as [|c s IH]; [reflexivity|].
  cbn [PyStr.lstrip]. destruct (PyStr.isspace c) eqn:Hc; [exact IH|].
  cbn [PyStr.lstrip]. now rewrite Hc.
Qed.

Lemma strip_idempotent (s : string) : PyStr.strip (PyStr.strip s) = PyStr.strip s.
Proof.
  unfold PyStr.strip.
  rewrite (lstrip_fixed_rstrip _ (lstrip_idempotent s)).
  apply rstrip_idempotent.
Qed.

End StringCleaning.

(** * The Reviewer and the Coder *)

(** X9.  When the completion service answers, the verdict depends on the
    answer alone: an answer that holds the word APPROVED anywhere, in any
    mix of upper and lower case (also inside "not approved"), approves the
    candidate, whatever the candidate is; any other answer rejects it and
    is the feedback, word for word. *)
Theorem review_follows_the_answer
  (Env : Type) (create : request -> Env -> completion * Env)
  (code task : string) (w : World Env) (review : string) (env' : Env) :
  create (reviewer_request (review_prompt code task)) (env w)
  = (Content (Some review), env') ->
  (forall pre word post,
      review = pre ++ word ++ post -> PyStr.upper word = "APPROVED" ->
      fst (ReviewerAgent_review Env create code task w)
      = Ok (mk_verdict true "Looks good"))
  /\ (PyStr.contains "APPROVED" (PyStr.upper review) = false ->
      fst (ReviewerAgent_review Env create code task w)
      = Ok (mk_verdict false review)).
Proof.
  intros Hc.
  assert (Hrun : fst (ReviewerAgent_review Env create code task w)
                 = Ok (if PyStr.contains "APPROVED" (PyStr.upper review)
                       then mk_verdict true "Looks good"
                       else mk_verdict false review)).
  { unfold ReviewerAgent_review, try_except, bind, chat_completion, Agent_say, ret.
    cbv beta. cbn [env]. rewrite Hc.
    destruct (PyStr.contains "APPROVED" (PyStr.upper review)); reflexivity. }
  rewrite Hrun. split.
  - intros pre word post -> Hword.
    rewrite !upper_app, Hword, contains_app_mid. reflexivity.
  - intros ->. reflexivity.
Qed.

Lemma review_follows_the_answer_witness :
  fst (ReviewerAgent_review unit SampleWorld2.disapproves "pass" "fib"
         SampleWorld.fresh)
  = Ok (mk_verdict true "Looks good").
Proof.
  apply (proj1 (review_follows_the_answer unit SampleWorld2.disapproves "pass" "fib"
                  SampleWorld.fresh "Not approved: it still has a TODO" tt eq_refl)
           "Not " "approved" ": it still has a TODO").
  - reflexivity.
  - reflexivity.
Defined.



(** X11.  Each call of [write_code] sends exactly one request, whose
    instructions always hold the task.  With a non-empty prior error they
    also hold the error text, word for word; a prior error that is None or
    the empty text is treated as absent, and the instructions are then the
    ones without error, chosen by the counter. *)
Theorem write_code_instructions
  (Env : Type) (create : request -> Env -> completion * Env)
  (task : string) (error_msg : option string) (w : World Env) :
  exists text,
    sent (snd (CoderAgent_write_code Env create task error_msg w))
    = (sent w ++ [coder_request text])%list
    /\ PyStr.contains task text = true
    /\ match error_msg with
       | Some (String c em) => PyStr.contains (String c em) text = true
       | Some EmptyString | None =>
           text = if coder_attempt w =? 0
                  then incomplete_instructions task
                  else complete_instructions task
       end.
Proof.
  destruct (write_code_effect Env create task error_msg w) as [_ Hs].
  eexists. split; [exact Hs|].
  replace (coder_attempt w + 1 =? 1) with (coder_attempt w =? 0)
    by (destruct (coder_attempt w =? 0) eqn:E; symmetry;
        [apply Z.eqb_eq; apply Z.eqb_eq in E; lia
        |apply Z.eqb_neq; apply Z.eqb_neq in E; lia]).
  assert (Hplain : PyStr.contains task
                     (if coder_attempt w =? 0 then incomplete_instructions task
                      else complete_instructions task) = true).
  { destruct (coder_attempt w =? 0);
      [unfold incomplete_instructions|unfold complete_instructions];
      apply (contains_app_mid task ""). }
  destruct error_msg as [[|c em]|]; cbn [given PyStr.truthy]; auto.
  split.
  - unfold fix_instructions.
    apply contains_skip. apply contains_skip. apply contains_skip.
    apply contains_skip. apply contains_skip.
    apply (contains_app_mid task "").
  - unfold fix_instructions. apply contains_app_mid.
Qed.



(** * More on the README section *)

Section ReadmeMore.

Import Readme.

Lemma updated_content_over_written (q p p' t : string) :
  (forall r, PyStr.split_head start_marker (q ++ start_marker ++ r) = q) ->
  updated_content (q ++ new_section p ++ t) p' = q ++ new_section p'.
Proof.
  intros Hq. rewrite updated_content_when_both.
  - rewrite new_section_fenced. repeat rewrite append_assoc. now rewrite Hq.
  - rewrite new_section_fenced. repeat rewrite append_assoc.
    apply contains_app_mid.
  - rewrite new_section_fenced.
    replace (q ++ (start_marker ++ fenced p ++ end_marker) ++ t)
      with ((q ++ start_marker ++ fenced p) ++ end_marker ++ t)
      by (repeat rewrite append_assoc; reflexivity).
    apply contains_app_mid.
Qed.

Lemma updated_content_overwrites (d p2 p3 : string) :
  PyStr.contains start_marker d = true ->
  PyStr.contains end_marker d = true ->
  updated_content (updated_content d p2) p3 = updated_content d p3.
Proof.
  intros Hs He.
  rewrite (updated_content_when_both d p2 Hs He).
  rewrite (updated_content_when_both d p3 Hs He).
  rewrite <- (append_nil_r (new_section p2)).
  apply updated_content_over_written.
  intros r. apply split_head_start_rejoin.
Qed.

Lemma updated_content_holds_section (content p : string) :
  PyStr.contains start_marker (updated_content content p) = true
  /\ PyStr.contains end_marker (updated_content content p) = true
  /\ PyStr.contains (new_section p) (updated_content content p) = true.
Proof.
  assert (Hany : forall q t,
             PyStr.contains start_marker (q ++ new_section p ++ t) = true
             /\ PyStr.contains end_marker (q ++ new_section p ++ t) = true
             /\ PyStr.contains (new_section p) (q ++ new_section p ++ t) = true).
  { intros q t. split; [|split].
    - rewrite new_section_fenced. repeat rewrite append_assoc.
      apply contains_app_mid.
    - rewrite new_section_fenced.
      replace (q ++ (start_marker ++ fenced p ++ end_marker) ++ t)
        with ((q ++ start_marker ++ fenced p) ++ end_marker ++ t)
        by (repeat rewrite append_assoc; reflexivity).
      apply contains_app_mid.
    - apply contains_app_mid. }
  unfold updated_content.
  destruct (PyStr.contains start_marker content && PyStr.contains end_marker content).
  - pose proof (Hany (PyStr.split_head start_marker content) "") as H.
    rewrite append_nil_r in H. exact H.
  - pose proof (Hany (content ++ latest_output_header) PyStr.nl) as H.
    rewrite append_assoc in H. exact H.
Qed.

Lemma updated_content_keeps_head (content p : string) :
  (exists rest,
      updated_content content p = PyStr.split_head start_marker content ++ rest)
  /\ (PyStr.contains start_marker content = false
      \/ PyStr.contains end_marker content = false ->
      exists rest, updated_content content p = content ++ rest).
Proof.
  unfold updated_content. split.
  - destruct (PyStr.contains start_marker content && PyStr.contains end_marker content).
    + eexists. reflexivity.
    + destruct (split_head_prefix start_marker content) as [r Hr].
      exists (r ++ latest_output_header ++ new_section p ++ PyStr.nl).
      rewrite <- (append_assoc (PyStr.split_head start_marker content) r), <- Hr.
      reflexivity.
  - intros [H|H]; rewrite H; rewrite ?andb_false_r; cbn [andb];
      eexists; reflexivity.
Qed.

End ReadmeMore.


(** X14.  On a README that holds both markers, an update overwrites the
    update before it: updating with one payload and then with another
    leaves the same file as updating with the second payload alone.  With
    twice the same payload: on such a README the update is idempotent, on
    the whole file. *)
Theorem update_overwrites_previous_update (d p2 p3 : string) :
  PyStr.contains Readme.start_marker d = true ->
  PyStr.contains Readme.end_marker d = true ->
  Readme.update_readme_with_output p3
    (Readme.update_readme_with_output p2 (Some d))
  = Readme.update_readme_with_output p3 (Some d)
  /\ Readme.update_readme_with_output p3
       (Readme.update_readme_with_output p3 (Some d))
     = Readme.update_readme_with_output p3 (Some d).
Proof.
  intros Hs He. cbn. split; f_equal; apply updated_content_overwrites; assumption.
Qed.

Lemma update_overwrites_previous_update_witness :
  let d := "# Demo" ++ Readme.latest_output_header ++ Readme.new_section "old"
             ++ PyStr.nl in
  Readme.update_readme_with_output "Result: 55"
    (Readme.update_readme_with_output "Result: 34" (Some d))
  = Readme.update_readme_with_output "Result: 55" (Some d)
  /\ Readme.update_readme_with_output "Result: 55"
       (Readme.update_readme_with_output "Result: 55" (Some d))
     = Readme.update_readme_with_output "Result: 55" (Some d).
Proof.
  cbv zeta.
  apply (update_overwrites_previous_update
           ("# Demo" ++ Readme.latest_output_header ++ Readme.new_section "old"
              ++ PyStr.nl) "Result: 34" "Result: 55").
  - reflexivity.
  - reflexivity.
Defined.


(** * The loop of custom_mode *)

